(** * NoiseWall.py: noise walls of EEG recordings

    A shallow embedding of the class [NoiseWall] of [src/NoiseWall.py] and
    the properties of its calculations.

    - The Python object is a record whose late attributes are [option]s
      (an unset attribute read raises [AttributeError]).
    - Methods are computations in a state-and-exception monad: a raise keeps
      the attribute writes made before it, as in Python.
    - Numbers are an interface [FloatOps] with two instances: IEEE binary64
      (primitive floats, what numpy computes with) and the real numbers
      (the arithmetic the formulas are meant in).
    - The numpy / scipy / libm routines and the Whitham et al. tables are a
      record [SciLib] the methods are parameterised by. *)

From Stdlib Require Import ZArith Reals Lra Lia String Ascii List Bool.
From Stdlib Require PrimFloat FloatOps Uint63 SpecFloat.
Import ListNotations.

Set Implicit Arguments.

(** ** Exceptions *)

Inductive exn : Type :=
| NoiseWallException (reason : string)
| AttributeError (attr : string)
| ValueError (msg : string)
| IndexError
| OverflowError
| OSError (filename : string).

Definition DATA_INVALID : string := "Data invalid".
Definition MIN_VAR_NEG : string := "Min variance less than pure EEG var".
Definition MAX_VAR_NEG : string := "Max variance less than pure EEG var".
Definition MIN_VAR_LARGER_THAN_MAX_VAR : string :=
  "Min variance larger than max variance".
Definition MIN_VAR_UNUSUALLY_HIGH : string := "Unusually high Min variance".

(** The typed error family: the exceptions the class raises itself. *)
Definition is_NoiseWallException (e : exn) : bool :=
  match e with NoiseWallException _ => true | _ => false end.

(** ** Numbers *)

Class FloatOps (F : Type) : Type := {
  of_Z : Z -> F;                 (* int -> float *)
  fadd : F -> F -> F;
  fsub : F -> F -> F;
  fmul : F -> F -> F;
  fdiv : F -> F -> F;            (* numpy true division: no exception *)
  fsqrt : F -> F;                (* np.sqrt, and x**0.5 on a numpy scalar *)
  fltb : F -> F -> bool;         (* x < y *)
  fleb : F -> F -> bool;         (* x <= y *)
  ftrunc : F -> exn + Z          (* int(x) *)
}.

Declare Scope fl_scope.
Delimit Scope fl_scope with fl.
Infix "+." := fadd (at level 50, left associativity) : fl_scope.
Infix "-." := fsub (at level 50, left associativity) : fl_scope.
Infix "*." := fmul (at level 40, left associativity) : fl_scope.
Infix "/." := fdiv (at level 40, left associativity) : fl_scope.
Infix "<." := fltb (at level 70, no associativity) : fl_scope.
Infix "<=." := fleb (at level 70, no associativity) : fl_scope.
Open Scope fl_scope.

(** Complex samples, as [scipy.signal.freqz] returns them. *)
Record complex (F : Type) : Type := Cplx { re : F; im : F }.

(** [np.abs] of a complex sample. *)
Definition cabs {F} `{FloatOps F} (z : complex F) : F :=
  fsqrt (re z *. re z +. im z *. im z).

(** ** The library routines the class calls *)

Inductive btype : Type := lowpass | highpass | bandstop | bandpass.

Record SciLib (F : Type) : Type := {
  (* scipy.signal.butter(N, Wn, btype): None when the design is rejected
     (ValueError) *)
  butter : Z -> list F -> btype -> option (list F * list F);
  (* scipy.signal.lfilter(b, a, x) *)
  lfilter : list F -> list F -> list F -> list F;
  (* scipy.signal.freqz(b, a, worN): sample k of the worN ones *)
  freqz : list F -> list F -> nat -> nat -> complex F;
  (* np.var, np.median *)
  np_var : list F -> F;
  np_median : list F -> F;
  (* the C library's log10, called by math.log10 inside its domain *)
  log10 : F -> F;
  (* 10 ** x *)
  pow10 : F -> F;
  (* np.loadtxt on one of the reference tables: rows (frequency,
     log10 power); None when the file cannot be read *)
  loadtxt_psd : string -> option (list (F * F));
  (* interp1d(f, p, kind='cubic'): None when the interpolator cannot be
     built; the interpolator gives None outside the range of f *)
  interp1d_cubic : list F -> list F -> option (F -> option F)
}.

(** ** The object *)

(** The attributes [loadDataFromFile] sets. [data], [t], [T], [emg] and
    [trigger] are never read by a calculation and are left out. *)
Record Recording (F : Type) : Type := {
  eeg : list F;
  zero_data : F;
  zero_video : F;
  artefact : list (F * F);
  relaxed : list F;
  fs : Z
}.

Record NoiseWall (F : Type) : Type := {
  f_signal_min : Z;
  f_signal_max : Z;
  noiseReduction : F;
  consciousEEGgain : F;
  dataok : bool;
  loaded : option (Recording F);
  eegFilterFrequencyResponse : option (list F);
  pureEEGVar : option F;
  noiseVarMin : option F;
  noiseVarMax : option F;
  rho : option F;
  SNRwall : option F;
  consciousEEGvar : option F;
  SNR : option F
}.

Section Setters.
Context {F : Type}.

Definition set_eeg (x : list F) (r : Recording F) : Recording F :=
  {| eeg := x; zero_data := zero_data r; zero_video := zero_video r;
     artefact := artefact r; relaxed := relaxed r; fs := fs r |}.

Definition set_f_signal (lo hi : Z) (s : NoiseWall F) : NoiseWall F :=
  {| f_signal_min := lo; f_signal_max := hi;
     noiseReduction := noiseReduction s;
     consciousEEGgain := consciousEEGgain s; dataok := dataok s;
     loaded := loaded s;
     eegFilterFrequencyResponse := eegFilterFrequencyResponse s;
     pureEEGVar := pureEEGVar s; noiseVarMin := noiseVarMin s;
     noiseVarMax := noiseVarMax s; rho := rho s; SNRwall := SNRwall s;
     consciousEEGvar := consciousEEGvar s; SNR := SNR s |}.

Definition set_loaded (r : Recording F) (s : NoiseWall F) : NoiseWall F :=
  {| f_signal_min := f_signal_min s; f_signal_max := f_signal_max s;
     noiseReduction := noiseReduction s;
     consciousEEGgain := consciousEEGgain s; dataok := dataok s;
     loaded := Some r;
     eegFilterFrequencyResponse := eegFilterFrequencyResponse s;
     pureEEGVar := pureEEGVar s; noiseVarMin := noiseVarMin s;
     noiseVarMax := noiseVarMax s; rho := rho s; SNRwall := SNRwall s;
     consciousEEGvar := consciousEEGvar s; SNR := SNR s |}.

Definition set_eegFilterFrequencyResponse (h : list F) (s : NoiseWall F)
  : NoiseWall F :=
  {| f_signal_min := f_signal_min s; f_signal_max := f_signal_max s;
     noiseReduction := noiseReduction s;
     consciousEEGgain := consciousEEGgain s; dataok := dataok s;
     loaded := loaded s;
     eegFilterFrequencyResponse := Some h;
     pureEEGVar := pureEEGVar s; noiseVarMin := noiseVarMin s;
     noiseVarMax := noiseVarMax s; rho := rho s; SNRwall := SNRwall s;
     consciousEEGvar := consciousEEGvar s; SNR := SNR s |}.

Definition set_pureEEGVar (v : F) (s : NoiseWall F) : NoiseWall F :=
  {| f_signal_min := f_signal_min s; f_signal_max := f_signal_max s;
     noiseReduction := noiseReduction s;
     consciousEEGgain := consciousEEGgain s; dataok := dataok s;
     loaded := loaded s;
     eegFilterFrequencyResponse := eegFilterFrequencyResponse s;
     pureEEGVar := Some v; noiseVarMin := noiseVarMin s;
     noiseVarMax := noiseVarMax s; rho := rho s; SNRwall := SNRwall s;
     consciousEEGvar := consciousEEGvar s; SNR := SNR s |}.

Definition set_noiseVarMin (v : F) (s : NoiseWall F) : NoiseWall F :=
  {| f_signal_min := f_signal_min s; f_signal_max := f_signal_max s;
     noiseReduction := noiseReduction s;
     consciousEEGgain := consciousEEGgain s; dataok := dataok s;
     loaded := loaded s;
     eegFilterFrequencyResponse := eegFilterFrequencyResponse s;
     pureEEGVar := pureEEGVar s; noiseVarMin := Some v;
     noiseVarMax := noiseVarMax s; rho := rho s; SNRwall := SNRwall s;
     consciousEEGvar := consciousEEGvar s; SNR := SNR s |}.

Definition set_noiseVarMax (v : F) (s : NoiseWall F) : NoiseWall F :=
  {| f_signal_min := f_signal_min s; f_signal_max := f_signal_max s;
     noiseReduction := noiseReduction s;
     consciousEEGgain := consciousEEGgain s; dataok := dataok s;
     loaded := loaded s;
     eegFilterFrequencyResponse := eegFilterFrequencyResponse s;
     pureEEGVar := pureEEGVar s; noiseVarMin := noiseVarMin s;
     noiseVarMax := Some v; rho := rho s; SNRwall := SNRwall s;
     consciousEEGvar := consciousEEGvar s; SNR := SNR s |}.

Definition set_rho (v : F) (s : NoiseWall F) : NoiseWall F :=
  {| f_signal_min := f_signal_min s; f_signal_max := f_signal_max s;
     noiseReduction := noiseReduction s;
     consciousEEGgain := consciousEEGgain s; dataok := dataok s;
     loaded := loaded s;
     eegFilterFrequencyResponse := eegFilterFrequencyResponse s;
     pureEEGVar := pureEEGVar s; noiseVarMin := noiseVarMin s;
     noiseVarMax := noiseVarMax s; rho := Some v; SNRwall := SNRwall s;
     consciousEEGvar := consciousEEGvar s; SNR := SNR s |}.

Definition set_SNRwall (v : F) (s : NoiseWall F) : NoiseWall F :=
  {| f_signal_min := f_signal_min s; f_signal_max := f_signal_max s;
     noiseReduction := noiseReduction s;
     consciousEEGgain := consciousEEGgain s; dataok := dataok s;
     loaded := loaded s;
     eegFilterFrequencyResponse := eegFilterFrequencyResponse s;
     pureEEGVar := pureEEGVar s; noiseVarMin := noiseVarMin s;
     noiseVarMax := noiseVarMax s; rho := rho s; SNRwall := Some v;
     consciousEEGvar := consciousEEGvar s; SNR := SNR s |}.

Definition set_consciousEEGvar (v : F) (s : NoiseWall F) : NoiseWall F :=
  {| f_signal_min := f_signal_min s; f_signal_max := f_signal_max s;
     noiseReduction := noiseReduction s;
     consciousEEGgain := consciousEEGgain s; dataok := dataok s;
     loaded := loaded s;
     eegFilterFrequencyResponse := eegFilterFrequencyResponse s;
     pureEEGVar := pureEEGVar s; noiseVarMin := noiseVarMin s;
     noiseVarMax := noiseVarMax s; rho := rho s; SNRwall := SNRwall s;
     consciousEEGvar := Some v; SNR := SNR s |}.

Definition set_SNR (v : F) (s : NoiseWall F) : NoiseWall F :=
  {| f_signal_min := f_signal_min s; f_signal_max := f_signal_max s;
     noiseReduction := noiseReduction s;
     consciousEEGgain := consciousEEGgain s; dataok := dataok s;
     loaded := loaded s;
     eegFilterFrequencyResponse := eegFilterFrequencyResponse s;
     pureEEGVar := pureEEGVar s; noiseVarMin := noiseVarMin s;
     noiseVarMax := noiseVarMax s; rho := rho s; SNRwall := SNRwall s;
     consciousEEGvar := consciousEEGvar s; SNR := Some v |}.
End Setters.

(** ** The state-and-exception monad of the methods *)

Definition M (S A : Type) : Type := S -> (exn + A) * S.

Definition ret {S A} (a : A) : M S A := fun s => (inr a, s).
Definition raise {S A} (e : exn) : M S A := fun s => (inl e, s).
Definition bind {S A B} (m : M S A) (k : A -> M S B) : M S B :=
  fun s => match m s with
           | (inr a, s') => k a s'
           | (inl e, s') => (inl e, s')
           end.
Definition gets {S A} (f : S -> A) : M S A := fun s => (inr (f s), s).
Definition modify {S} (f : S -> S) : M S unit := fun s => (inr tt, f s).

(** Reading an attribute that may not have been assigned yet. *)
Definition getattr {S A} (name : string) (f : S -> option A) : M S A :=
  fun s => match f s with
           | Some a => (inr a, s)
           | None => (inl (AttributeError name), s)
           end.

(** A library call that may raise. *)
Definition lift_opt {S A} (e : exn) (o : option A) : M S A :=
  match o with Some a => ret a | None => raise e end.
Definition lift_sum {S A} (o : exn + A) : M S A :=
  match o with inr a => ret a | inl e => raise e end.

Notation "x <- m ;; k" := (bind m (fun x => k))
  (at level 61, m at next level, right associativity).
Notation "m ;;; k" := (bind m (fun _ => k))
  (at level 61, right associativity).

(** ** Python and numpy indexing *)

(** A slice bound, as Python normalises it against a length [n]. *)
Definition slice_bound (n i : Z) : Z :=
  Z.max 0 (Z.min n (if (i <? 0)%Z then (i + n)%Z else i)).

(** [a[t1:t2]] *)
Definition py_slice {A} (a : list A) (t1 t2 : Z) : list A :=
  let n := Z.of_nat (length a) in
  let lo := slice_bound n t1 in
  let hi := slice_bound n t2 in
  firstn (Z.to_nat (hi - lo)) (skipn (Z.to_nat lo) a).

(** [a[i]] : negative indices count from the end, anything else outside
    the array raises [IndexError]. *)
Definition py_index {A} (a : list A) (i : Z) : exn + A :=
  let n := Z.of_nat (length a) in
  let j := if (i <? 0)%Z then (i + n)%Z else i in
  if (j <? 0)%Z then inl IndexError
  else match nth_error a (Z.to_nat j) with
       | Some x => inr x
       | None => inl IndexError
       end.

(** [np.arange(lo, hi)] on integers. *)
Definition arange (lo hi : Z) : list Z :=
  map (fun k => (lo + Z.of_nat k)%Z) (seq 0 (Z.to_nat (hi - lo))).

(** Elementwise product of two arrays of the same length. *)
Fixpoint zipWith {A B C} (f : A -> B -> C) (xs : list A) (ys : list B)
  : list C :=
  match xs, ys with
  | x :: xs', y :: ys' => f x y :: zipWith f xs' ys'
  | _, _ => []
  end.

(** ** The constructor's validity test *)

(** [d in ['True','true','ok','OK']] for the single token [d] of
    [all_exp_ok.dat]. *)
Definition marker_ok (d : string) : bool :=
  existsb (String.eqb d) ["True"; "true"; "ok"; "OK"]%string.

(** The files of one subject and experiment, as [np.loadtxt] returns
    them. *)
Record Dataset (F : Type) : Type := {
  all_exp_ok_dat : string;
  emgeeg_dat : list (F * F * F * F);
  zero_time_data_dat : F;
  zero_time_video_dat : F;
  artefact_dat : list (F * F);
  dataok_dat : list F
}.

(** ** The methods *)

Section Methods.
Context {F : Type} {ops : FloatOps F} (lib : SciLib F).

#[local] Abbreviation Obj := (NoiseWall F).
#[local] Abbreviation Meth := (M Obj).

Definition loadDataFromFile (d : Dataset F) : Recording F :=
  let corrfactor := of_Z 2 in
  {| eeg := map (fun row => snd (fst (fst row)) /. of_Z 500 *. corrfactor)
                (emgeeg_dat d);
     zero_data := zero_time_data_dat d;
     zero_video := zero_time_video_dat d;
     artefact := artefact_dat d;
     relaxed := dataok_dat d;
     fs := 1000 |}.

(** [__init__] *)
Definition init (d : Dataset F) : Obj :=
  let ok := marker_ok (all_exp_ok_dat d) in
  {| f_signal_min := 1; f_signal_max := 95;
     noiseReduction := of_Z 1; consciousEEGgain := of_Z 1;
     dataok := ok;
     loaded := if ok then Some (loadDataFromFile d) else None;
     eegFilterFrequencyResponse := None;
     pureEEGVar := None; noiseVarMin := None; noiseVarMax := None;
     rho := None; SNRwall := None; consciousEEGvar := None;
     SNR := None |}.

(** [self.eeg] and [self.eeg = x]; every write follows a read, so the
    recording is loaded when it happens. *)
Definition read_eeg : Meth (list F) :=
  r <- getattr "eeg" (@loaded F) ;; ret (eeg r).
Definition write_eeg (x : list F) : Meth unit :=
  modify (fun s => match loaded s with
                   | Some r => set_loaded (set_eeg x r) s
                   | None => s
                   end).

(** The loop of [readParalysedEEGVarianceFromWhithamEtAl]. *)
Fixpoint bandpower_loop (psd : F -> option F) (freqs : list Z)
    (bandpower : F) : Meth F :=
  match freqs with
  | [] => ret bandpower
  | f2 :: rest =>
      y <- lift_opt (ValueError "x_new out of the interpolation range")
             (psd (of_Z f2)) ;;
      h <- getattr "eegFilterFrequencyResponse"
             (@eegFilterFrequencyResponse F) ;;
      hf <- lift_sum (py_index h f2) ;;
      bandpower_loop psd rest (bandpower +. pow10 lib y *. (hf *. hf))
  end.

Definition readParalysedEEGVarianceFromWhithamEtAl (filename : string)
  : Meth F :=
  a <- lift_opt (OSError filename) (loadtxt_psd lib filename) ;;
  let f := map fst a in
  let p := map snd a in
  psd <- lift_opt (ValueError "interp1d") (interp1d_cubic lib f p) ;;
  lo <- gets (@f_signal_min F) ;;
  hi <- gets (@f_signal_max F) ;;
  bandpower_loop psd (arange lo hi) (of_Z 0).

(** One line [self.pureEEGVar = self.pureEEGVar + self.read...(fn)]. *)
Definition addParalysedEEGVariance (filename : string) : Meth unit :=
  v <- getattr "pureEEGVar" (@pureEEGVar F) ;;
  b <- readParalysedEEGVarianceFromWhithamEtAl filename ;;
  modify (set_pureEEGVar (v +. b)).

Definition whitham_tables : list string :=
  ["sub1a.dat"; "sub1b.dat"; "sub1c.dat";
   "sub2a.dat"; "sub2b.dat"; "sub2c.dat"]%string.

Definition calculateParalysedEEGVariance : Meth unit :=
  modify (set_pureEEGVar (of_Z 0)) ;;;
  addParalysedEEGVariance "sub1a.dat" ;;;
  addParalysedEEGVariance "sub1b.dat" ;;;
  addParalysedEEGVariance "sub1c.dat" ;;;
  addParalysedEEGVariance "sub2a.dat" ;;;
  addParalysedEEGVariance "sub2b.dat" ;;;
  addParalysedEEGVariance "sub2c.dat" ;;;
  v <- getattr "pureEEGVar" (@pureEEGVar F) ;;
  modify (set_pureEEGVar (v /. of_Z 6)).

(** [np.abs(h_new)] for the [worN] samples of [freqz(b, a, worN)]. *)
Definition magnitude (b a : list F) (worN : nat) : list F :=
  map (fun k => cabs (freqz lib b a worN k)) (seq 0 worN).

Definition calcFrequencyResponse (b a : list F) (h_in : list F)
  : Meth (list F) :=
  r <- getattr "fs" (@loaded F) ;;
  let worN := Z.to_nat (Z.quot (fs r) 2) in
  if (length h_in <? 1)%nat
  then ret (magnitude b a worN)
  else ret (zipWith fmul (magnitude b a worN) h_in).

Definition design (N : Z) (Wn : list F) (t : btype)
  : Meth (list F * list F) :=
  lift_opt (ValueError "butter") (butter lib N Wn t).

(** Normalised frequency [f / self.fs * 2]. *)
Definition wn (f : F) (r : Recording F) : F := f /. of_Z (fs r) *. of_Z 2.

(** [filterData], "smooth it at 100Hz cutoff". *)
Definition stageA : Meth (list F) :=
  r <- getattr "fs" (@loaded F) ;;
  LP <- design 6 [wn (of_Z 100) r] lowpass ;;
  x <- read_eeg ;;
  write_eeg (lfilter lib (fst LP) (snd LP) x) ;;;
  calcFrequencyResponse (fst LP) (snd LP) [].

(** [filterData], "highpass at 1Hz and 50Hz notch". *)
Definition stageB (fresp : list F) : Meth (list F) :=
  r <- getattr "fs" (@loaded F) ;;
  filt50hz <- design 2 [wn (of_Z 49) r; wn (of_Z 51) r] bandstop ;;
  hp <- design 4 [wn (of_Z 1 /. of_Z 2) r] highpass ;;
  x <- read_eeg ;;
  write_eeg (lfilter lib (fst hp) (snd hp)
               (lfilter lib (fst filt50hz) (snd filt50hz) x)) ;;;
  calcFrequencyResponse (fst hp) (snd hp) fresp.

(** [filterData], "strange 25 Hz interference". *)
Definition stageC (fresp : list F) : Meth (list F) :=
  r <- getattr "fs" (@loaded F) ;;
  filt25hz <- design 2 [wn (of_Z 24) r; wn (of_Z 26) r] bandstop ;;
  x <- read_eeg ;;
  write_eeg (lfilter lib (fst filt25hz) (snd filt25hz) x) ;;;
  calcFrequencyResponse (fst filt25hz) (snd filt25hz) fresp.

(** [filterData], "50 Hz interference". *)
Definition stageD (fresp : list F) : Meth (list F) :=
  r <- getattr "fs" (@loaded F) ;;
  filt50hz <- design 2 [wn (of_Z 49) r; wn (of_Z 51) r] bandstop ;;
  x <- read_eeg ;;
  write_eeg (lfilter lib (fst filt50hz) (snd filt50hz) x) ;;;
  calcFrequencyResponse (fst filt50hz) (snd filt50hz) fresp.

(** The body of [for i in range(-int(band_low))], [n] times. *)
Fixpoint firLoop (n : nat) (fresp : list F) : Meth unit :=
  match n with
  | O => ret tt
  | S n' =>
      let q := of_Z 1 /. of_Z 4 in
      let mq := of_Z (-1) /. of_Z 4 in
      let bfiltbp := [q; q; q; q; mq; mq; mq; mq] in
      let afiltbp := [of_Z 1] in
      x <- read_eeg ;;
      write_eeg (lfilter lib bfiltbp afiltbp x) ;;;
      fresp' <- calcFrequencyResponse bfiltbp afiltbp fresp ;;
      modify (set_eegFilterFrequencyResponse fresp') ;;;
      firLoop n' fresp'
  end.

(** [filterData], from "by default we look at the whole EEG band" on. *)
Definition stageE (band_low band_high : F) (fresp : list F) : Meth unit :=
  (if (of_Z 0 <. band_high) && (of_Z 0 <. band_low)
      && (band_low <. band_high)
   then
     r <- getattr "fs" (@loaded F) ;;
     bp <- design 4 [wn band_low r; wn band_high r] bandpass ;;
     x <- read_eeg ;;
     write_eeg (lfilter lib (fst bp) (snd bp) x) ;;;
     h <- calcFrequencyResponse (fst bp) (snd bp) fresp ;;
     modify (set_eegFilterFrequencyResponse h)
   else ret tt) ;;;
  if band_low <. of_Z 0
  then
    n <- lift_sum (ftrunc band_low) ;;
    firLoop (Z.to_nat (- n)) fresp
  else ret tt.

(** Stages A to D: the value of the local [fresp] before the band
    selection. *)
Definition stagesAD : Meth (list F) :=
  fresp <- stageA ;;
  fresp <- stageB fresp ;;
  fresp <- stageC fresp ;;
  stageD fresp.

Definition filterData (band_low band_high : F) : Meth unit :=
  fresp <- stagesAD ;;
  stageE band_low band_high fresp.
(** [getMinNoiseVarEEGChunk] *)
Definition getMinNoiseVarEEGChunk : Meth (list F) :=
  r <- getattr "zero_data" (@loaded F) ;;
  let dt := zero_data r -. zero_video r in
  rel0 <- lift_sum (py_index (relaxed r) 0) ;;
  t1 <- lift_sum (ftrunc (of_Z (fs r) *. (rel0 +. dt))) ;;
  rel1 <- lift_sum (py_index (relaxed r) 1) ;;
  t2 <- lift_sum (ftrunc (of_Z (fs r) *. (rel1 +. dt))) ;;
  ret (py_slice (eeg r) t1 t2).

(** The literal [50E-6]: 50 / 10^6 correctly rounded. *)
Definition lit_50E_6 : F := of_Z 50 /. of_Z 1000000.

(** [calcNoiseVarMin] *)
Definition calcNoiseVarMin : Meth unit :=
  chunk <- getMinNoiseVarEEGChunk ;;
  nr <- gets (@noiseReduction F) ;;
  let yMin := map (fun y => y /. nr) chunk in
  let yMinVar := np_var lib yMin in
  modify (set_noiseVarMin yMinVar) ;;;
  v <- getattr "noiseVarMin" (@noiseVarMin F) ;;
  if v <. of_Z 0
  then raise (NoiseWallException MIN_VAR_NEG)
  else if lit_50E_6 <. fsqrt yMinVar
       then raise (NoiseWallException MIN_VAR_UNUSUALLY_HIGH)
       else ret tt.

(** The loop of [calcNoiseVarMax] over the rows of [tbegin], [tend]. *)
Fixpoint maxVarLoop (rows : list (F * F)) (maxVarList : list F)
  : Meth (list F) :=
  match rows with
  | [] => ret maxVarList
  | (tb, te) :: rest =>
      r <- getattr "fs" (@loaded F) ;;
      t1 <- lift_sum (ftrunc (of_Z (fs r) *. tb)) ;;
      t2 <- lift_sum (ftrunc (of_Z (fs r) *. te)) ;;
      nr <- gets (@noiseReduction F) ;;
      let signalWithArtefact :=
        map (fun y => y /. nr) (py_slice (eeg r) t1 t2) in
      let artefactVar := np_var lib signalWithArtefact in
      maxVarLoop rest (maxVarList ++ [artefactVar])
  end.

(** [calcNoiseVarMax] *)
Definition calcNoiseVarMax : Meth unit :=
  r <- getattr "artefact" (@loaded F) ;;
  let dt := zero_data r -. zero_video r in
  let rows := map (fun row => (fst row +. dt, snd row +. dt)) (artefact r) in
  maxVarList <- maxVarLoop rows [] ;;
  modify (set_noiseVarMax (np_median lib maxVarList)) ;;;
  v <- getattr "noiseVarMax" (@noiseVarMax F) ;;
  if v <. of_Z 0
  then raise (NoiseWallException MAX_VAR_NEG)
  else ret tt.

(** [calcRho] *)
Definition calcRho : Meth unit :=
  vmax <- getattr "noiseVarMax" (@noiseVarMax F) ;;
  vmin <- getattr "noiseVarMin" (@noiseVarMin F) ;;
  modify (set_rho (fsqrt (vmax /. vmin))).

(** [math.log10]: the C function on positive arguments and +inf, a nan
    passed through, [ValueError] on zero and on negative arguments. *)
Definition math_log10 (x : F) : exn + F :=
  if of_Z 0 <. x then inr (log10 lib x)
  else if x <=. of_Z 0 then inl (ValueError "math domain error")
  else inr x.

(** [calcNoiseWall] *)
Definition calcNoiseWall : Meth unit :=
  r <- getattr "rho" (@rho F) ;;
  if r <. of_Z 1
  then raise (NoiseWallException MIN_VAR_LARGER_THAN_MAX_VAR)
  else
    v <- lift_sum (math_log10 (r -. of_Z 1 /. r)) ;;
    modify (set_SNRwall (of_Z 10 *. v)).

(** The local [noiseVariance] of [calcSNR]. *)
Definition noiseVariance (vmin r : F) : F := vmin *. r.

(** [calcSNR] *)
Definition calcSNR : Meth unit :=
  vmin <- getattr "noiseVarMin" (@noiseVarMin F) ;;
  r <- getattr "rho" (@rho F) ;;
  g <- gets (@consciousEEGgain F) ;;
  p <- getattr "pureEEGVar" (@pureEEGVar F) ;;
  modify (set_consciousEEGvar (g *. g *. p)) ;;;
  c <- getattr "consciousEEGvar" (@consciousEEGvar F) ;;
  v <- lift_sum (math_log10 (c /. noiseVariance vmin r)) ;;
  modify (set_SNR (of_Z 10 *. v)).

(** [doAllCalcs] *)
Definition doAllCalcs (minEEGSignalFrequencyBand maxEEGSignalFrequencyBand : Z)
  : Meth unit :=
  modify (set_f_signal minEEGSignalFrequencyBand maxEEGSignalFrequencyBand) ;;;
  ok <- gets (@dataok F) ;;
  if negb ok
  then raise (NoiseWallException DATA_INVALID)
  else
    calculateParalysedEEGVariance ;;;
    calcNoiseVarMin ;;;
    calcNoiseVarMax ;;;
    calcRho ;;;
    calcNoiseWall ;;;
    calcSNR.

(** [getSNRwall], [getSNR] *)
Definition getSNRwall : Meth F := getattr "SNRwall" (@SNRwall F).
Definition getSNR : Meth F := getattr "SNR" (@SNR F).
End Methods.

(** ** The two number systems *)

(** *** Real numbers

    The reals have no nan and no infinity: [x / 0] is 0 here, where numpy
    gives an infinity or a nan. Statements over the reals take divisors
    non-zero where the quotient matters. *)

Definition Rltb (x y : R) : bool := if Rlt_dec x y then true else false.
Definition Rleb (x y : R) : bool := if Rle_dec x y then true else false.

(** Truncation toward zero. *)
Definition Rtrunc (x : R) : Z :=
  if Rle_dec 0 x then Int_part x else (- Int_part (- x))%Z.

#[export] Instance real_ops : FloatOps R := {|
  of_Z := IZR;
  fadd := Rplus; fsub := Rminus; fmul := Rmult; fdiv := Rdiv;
  fsqrt := sqrt;
  fltb := Rltb; fleb := Rleb;
  ftrunc := fun x => inr (Rtrunc x)
|}.

(** *** IEEE binary64 *)

Definition float_of_Z (z : Z) : PrimFloat.float :=
  if (z <? 0)%Z
  then PrimFloat.opp (PrimFloat.of_uint63 (Uint63.of_Z (- z)))
  else PrimFloat.of_uint63 (Uint63.of_Z z).

(** [int(x)]: [ValueError] on a nan, [OverflowError] on an infinity. *)
Definition float_trunc (x : PrimFloat.float) : exn + Z :=
  match FloatOps.Prim2SF x with
  | SpecFloat.S754_zero _ => inr 0%Z
  | SpecFloat.S754_infinity _ => inl OverflowError
  | SpecFloat.S754_nan => inl (ValueError "cannot convert float NaN to integer")
  | SpecFloat.S754_finite sgn m e =>
      let a := if (0 <=? e)%Z then (Z.pos m * 2 ^ e)%Z
               else (Z.pos m / 2 ^ (- e))%Z in
      inr (if sgn then (- a)%Z else a)
  end.

#[export] Instance binary64_ops : FloatOps PrimFloat.float := {|
  of_Z := float_of_Z;
  fadd := PrimFloat.add; fsub := PrimFloat.sub;
  fmul := PrimFloat.mul; fdiv := PrimFloat.div;
  fsqrt := PrimFloat.sqrt;
  fltb := PrimFloat.ltb; fleb := PrimFloat.leb;
  ftrunc := float_trunc
|}.

(** ** The validity marker, as the specification words it *)

Definition ascii_lower (c : ascii) : ascii :=
  let n := nat_of_ascii c in
  if ((65 <=? n) && (n <=? 90))%nat then ascii_of_nat (n + 32) else c.

Fixpoint lower (s : string) : string :=
  match s with
  | EmptyString => EmptyString
  | String c s' => String (ascii_lower c) (lower s')
  end.

(** "a single token, case-insensitive, one of {true, ok}" *)
Definition case_insensitive_valid (d : string) : bool :=
  String.eqb (lower d) "true" || String.eqb (lower d) "ok".

(** ** The responses and integrals the specification talks about *)

Section Specification.
Context {F : Type} {ops : FloatOps F} (lib : SciLib F).

(** The coefficients [filterData] designs for a recording sampled at
    [fs r]. *)
Definition LP (r : Recording F) := butter lib 6 [wn (of_Z 100) r] lowpass.
Definition HP (r : Recording F) :=
  butter lib 4 [wn (of_Z 1 /. of_Z 2) r] highpass.
Definition N50 (r : Recording F) :=
  butter lib 2 [wn (of_Z 49) r; wn (of_Z 51) r] bandstop.
Definition N25 (r : Recording F) :=
  butter lib 2 [wn (of_Z 24) r; wn (of_Z 26) r] bandstop.

(** The magnitude response of a cascade: the pointwise product of the
    magnitude responses of its filters, the first one innermost. *)
Definition cascade_response (worN : nat) (filters : list (list F * list F))
  : list F :=
  match filters with
  | [] => []
  | f :: rest =>
      fold_left
        (fun acc g => zipWith fmul (magnitude lib (fst g) (snd g) worN) acc)
        rest (magnitude lib (fst f) (snd f) worN)
  end.

(** The signal a cascade produces: the filters applied in order. *)
Definition cascade_signal (filters : list (list F * list F)) (x : list F)
  : list F :=
  fold_left (fun acc g => lfilter lib (fst g) (snd g) acc) filters x.

(** The sum over the frequencies [freqs] of 10 to the log-power [y f]
    times the squared response [resp f]. *)
Definition band_integral (y resp : Z -> F) (freqs : list Z) : F :=
  fold_right (fun f acc => pow10 lib (y f) *. (resp f *. resp f) +. acc)
             (of_Z 0) freqs.

(** The average of the per-table integrals over [freqs]; [y fn] is the
    interpolated log-power of table [fn]. *)
Definition reference_variance (y : string -> Z -> F) (resp : Z -> F)
    (freqs : list Z) : F :=
  fold_right (fun fn acc => band_integral (y fn) resp freqs +. acc)
             (of_Z 0) whitham_tables /. of_Z 6.
End Specification.

(** The frequencies of the band as the source walks them, and with the
    upper end included. *)
Definition band_half_open (lo hi : Z) : list Z := arange lo hi.
Definition band_inclusive (lo hi : Z) : list Z := arange lo (hi + 1).

Definition nonneg (h : list R) : Prop := Forall (fun x => (0 <= x)%R) h.

(** The transfer function attribute is unset or non-negative. *)
Definition response_nonneg (s : NoiseWall R) : Prop :=
  match eegFilterFrequencyResponse s with
  | Some h => nonneg h
  | None => True
  end.

(** [s] differs from [s0] at most in the signal [eeg]: every other
    attribute, and whether the recording is loaded, is that of [s0]. *)
Definition only_eeg_changed {F} (s0 s : NoiseWall F) : Prop :=
  f_signal_min s = f_signal_min s0 /\ f_signal_max s = f_signal_max s0 /\
  dataok s = dataok s0 /\
  eegFilterFrequencyResponse s = eegFilterFrequencyResponse s0 /\
  pureEEGVar s = pureEEGVar s0 /\ noiseVarMin s = noiseVarMin s0 /\
  noiseVarMax s = noiseVarMax s0 /\ rho s = rho s0 /\
  SNRwall s = SNRwall s0 /\ consciousEEGvar s = consciousEEGvar s0 /\
  SNR s = SNR s0.

(** ** The conditions for the reference variance to be computed *)

(** The sum as the loop of [readParalysedEEGVarianceFromWhithamEtAl]
    builds it, from the left. *)
Definition loop_sum (lib : SciLib R) (resp y : Z -> R) (freqs : list Z)
    (acc : R) : R :=
  fold_left (fun acc f => (acc + pow10 lib (y f) * (resp f * resp f))%R)
            freqs acc.

(** A table that can be read and interpolated over the band of [t], with
    log-power [y f] at the frequency [f]. *)
Definition table_ok (lib : SciLib R) (t : NoiseWall R) (fn : string)
    (y : Z -> R) : Prop :=
  exists a psd,
    loadtxt_psd lib fn = Some a /\
    interp1d_cubic lib (map fst a) (map snd a) = Some psd /\
    forall f, (f_signal_min t <= f < f_signal_max t)%Z ->
              psd (IZR f) = Some (y f).

(** The transfer function of [t] is [h], and [h[f]] is [resp f] over the
    band of [t]. *)
Definition response_ok (h : list R) (resp : Z -> R) (t : NoiseWall R)
  : Prop :=
  eegFilterFrequencyResponse t = Some h /\
  forall f, (f_signal_min t <= f < f_signal_max t)%Z ->
            py_index h f = inr (resp f).

(** The number of frequencies [calcFrequencyResponse] evaluates [freqz]
    at: [int(self.fs/2)]. *)
Definition worN {F} (r : Recording F) : nat := Z.to_nat (Z.quot (fs r) 2).

(** ** Reasoning about methods *)

(** [triple P m Q E]: from a state in [P], [m] either returns [a] in a
    state satisfying [Q a], or raises in a state satisfying [E]. *)
Definition triple {S A} (P : S -> Prop) (m : M S A) (Q : A -> S -> Prop)
    (E : S -> Prop) : Prop :=
  forall s, P s ->
    match m s with
    | (inr a, s') => Q a s'
    | (inl _, s') => E s'
    end.

(** [m] keeps the invariant [I], whether it returns or raises. *)
Definition keeps {S A} (I : S -> Prop) (m : M S A) : Prop :=
  triple I m (fun _ => I) I.

(** ** A small library and recording to run the methods on *)

Module Demo.
Open Scope R_scope.

(** Filters of order zero: [b = [g]], [a = [1]] is the gain [g]. For
    these, [lfilter] scales the signal and [freqz] is constant. *)
Definition gain (g : R) : list R * list R := ([g], [1]).
Definition lfilter0 (b a x : list R) : list R :=
  map (fun v => hd 0 b / hd 1 a * v) x.
Definition freqz0 (b a : list R) (worN k : nat) : complex R :=
  Cplx (hd 0 b / hd 1 a) 0.

(** A design routine that answers every band-stop with the gain 1/2 and
    everything else with the gain 1. *)
Definition butter0 (N : Z) (Wn : list R) (t : btype)
  : option (list R * list R) :=
  Some (gain match t with bandstop => 1 / 2 | _ => 1 end).

(** A reference table of constant log-power 0 on 0..100 Hz and its
    interpolant. *)
Definition flat_table : list (R * R) := [(0, 0); (50, 0); (100, 0)].
Definition flat_psd (x : R) : option R :=
  if Rleb 0 x && Rleb x 100 then Some 0 else None.

(** The library, with the variance and median routines left open. *)
Definition lib (var median : list R -> R) : SciLib R :=
  {| butter := butter0; lfilter := lfilter0; freqz := freqz0;
     np_var := var; np_median := median;
     log10 := fun x => ln x / ln 10;
     pow10 := fun x => Rpower 10 x;
     loadtxt_psd := fun _ => Some flat_table;
     interp1d_cubic := fun _ _ => Some flat_psd |}.

(** A variance routine that answers [v] whatever the samples. *)
Definition const (v : R) (_ : list R) : R := v.

(** Four samples, a quiet window [0 s, 0.002 s) and one artefact window. *)
Definition dataset (marker : string) : Dataset R :=
  {| all_exp_ok_dat := marker;
     emgeeg_dat := [(0, 250, 0, 0); (1, 500, 0, 0); (2, 250, 0, 0);
                    (3, 500, 0, 0)];
     zero_time_data_dat := 0;
     zero_time_video_dat := 0;
     artefact_dat := [(2 / 1000, 4 / 1000)];
     dataok_dat := [0; 2 / 1000] |}.

Definition recording : Recording R := loadDataFromFile (dataset "true").
Definition valid : NoiseWall R := init (dataset "true").

(** The filters [filterData] applies to the signal in stages A to D, and
    the ones whose response it multiplies into [fresp]. *)
Definition applied : list (list R * list R) :=
  [gain 1; gain (1 / 2); gain 1; gain (1 / 2); gain (1 / 2)].
Definition folded : list (list R * list R) :=
  [gain 1; gain 1; gain (1 / 2); gain (1 / 2)].
Definition invalid : NoiseWall R := init (dataset "false").

(** An object whose two noise variances have been measured. *)
Definition measured (vmin vmax : R) : NoiseWall R :=
  set_noiseVarMax vmax (set_noiseVarMin vmin valid).

(** An object with a transfer function of four unit samples and the
    signal band 1..3. *)
Definition banded : NoiseWall R :=
  set_f_signal 1 3 (set_eegFilterFrequencyResponse [1; 1; 1; 1] valid).
End Demo.

(** The same measured object in binary64. *)
Definition measured64 (vmin vmax : Z) : NoiseWall PrimFloat.float :=
  {| f_signal_min := 1; f_signal_max := 95;
     noiseReduction := of_Z 1; consciousEEGgain := of_Z 1;
     dataok := true; loaded := None;
     eegFilterFrequencyResponse := None; pureEEGVar := None;
     noiseVarMin := Some (of_Z vmin); noiseVarMax := Some (of_Z vmax);
     rho := None; SNRwall := None; consciousEEGvar := None; SNR := None |}.

(** ** Further notions for the noise estimator and the band selection *)

(** The variance [calcNoiseVarMax] computes for one artefact window
    [(begin, end)] of the video timebase. *)
Definition window_variance (lib : SciLib R) (r : Recording R) (nr : R)
    (row : R * R) : R :=
  let dt := (zero_data r - zero_video r)%R in
  let t1 := Rtrunc (IZR (fs r) * (fst row + dt)) in
  let t2 := Rtrunc (IZR (fs r) * (snd row + dt)) in
  np_var lib (map (fun y => (y / nr)%R) (py_slice (eeg r) t1 t2)).

(** The kernel of the FIR passes of [filterData]: four taps of 0.25, four
    of -0.25, denominator 1. *)
Definition fir_b {F} `{FloatOps F} : list F :=
  let q := of_Z 1 /. of_Z 4 in
  let mq := of_Z (-1) /. of_Z 4 in
  [q; q; q; q; mq; mq; mq; mq].
Definition fir_a {F} `{FloatOps F} : list F := [of_Z 1].

(** The object after [k] FIR passes started from the accumulator [h] on
    the recording [r]: untouched when there is no pass. *)
Definition after_fir {F} `{FloatOps F} (lib : SciLib F) (k : nat)
    (h : list F) (r : Recording F) (s : NoiseWall F) : NoiseWall F :=
  match k with
  | O => s
  | S _ =>
      set_eegFilterFrequencyResponse
        (Nat.iter k (zipWith fmul (magnitude lib fir_b fir_a (worN r))) h)
        (set_loaded
           (set_eeg (Nat.iter k (lfilter lib fir_b fir_a) (eeg r)) r) s)
  end.

(** The demo library with a design routine that rejects every band-pass. *)
Definition demo_lib_no_bandpass : SciLib R :=
  {| butter := fun N Wn t =>
                 match t with
                 | bandpass => None
                 | _ => Demo.butter0 N Wn t
                 end;
     lfilter := Demo.lfilter0; freqz := Demo.freqz0;
     np_var := Demo.const 0%R; np_median := Demo.const 0%R;
     log10 := fun x => (ln x / ln 10)%R;
     pow10 := fun x => Rpower 10 x;
     loadtxt_psd := fun _ => Some Demo.flat_table;
     interp1d_cubic := fun _ _ => Some Demo.flat_psd |}.

(** Every loaded recording has [n] evaluation frequencies, and the
    transfer function, when assigned, has [n] samples. *)
Definition sized {F} (n : nat) (s : NoiseWall F) : Prop :=
  (forall r, loaded s = Some r -> worN r = n) /\
  match eegFilterFrequencyResponse s with
  | Some h => length h = n
  | None => True
  end.

(** pureEEGVar is assigned and not negative. *)
Definition pure_nonneg (t : NoiseWall R) : Prop :=
  exists p, pureEEGVar t = Some p /\ (0 <= p)%R.

(** ** A binary64 recording whose quiet window is empty *)

(** A binary64 library for the noise estimator: [np.var] and [np.median]
    of an empty array are nan, as in numpy, and 0 on anything else; no
    filter can be designed and no table read; the two libm routines, which
    the estimator does not call, answer their argument. *)
Definition lib64 : SciLib PrimFloat.float :=
  {| butter := fun _ _ _ => None;
     lfilter := fun _ _ x => x;
     freqz := fun _ _ _ _ => Cplx (of_Z 0) (of_Z 0);
     np_var := fun l => match l with [] => PrimFloat.nan | _ => of_Z 0 end;
     np_median :=
       fun l => match l with [] => PrimFloat.nan | _ => of_Z 0 end;
     log10 := fun x => x;
     pow10 := fun x => x;
     loadtxt_psd := fun _ => None;
     interp1d_cubic := fun _ _ => None |}.

(** Three samples and a quiet window from 0 s to 0 s. *)
Definition quiet64 : NoiseWall PrimFloat.float :=
  {| f_signal_min := 1; f_signal_max := 95;
     noiseReduction := of_Z 1; consciousEEGgain := of_Z 1;
     dataok := true;
     loaded := Some {| eeg := [of_Z 1; of_Z 2; of_Z 1];
                       zero_data := of_Z 0; zero_video := of_Z 0;
                       artefact := []; relaxed := [of_Z 0; of_Z 0];
                       fs := 1000 |};
     eegFilterFrequencyResponse := None; pureEEGVar := None;
     noiseVarMin := None; noiseVarMax := None;
     rho := None; SNRwall := None; consciousEEGvar := None; SNR := None |}.

(** ** Outcomes outside the typed error family *)

(** A result that is not a [NoiseWallException]. *)
Definition untyped {A} (res : exn + A) : Prop :=
  match res with
  | inl e => is_NoiseWallException e = false
  | inr _ => True
  end.

(** A computation that never raises a [NoiseWallException]. *)
Definition never_typed {S A} (m : M S A) : Prop :=
  forall s, untyped (fst (m s)).

(** ** What the filter and the calculations leave alone *)

(** [s] differs from [s0] at most in the signal [eeg] and in the transfer
    function: the band, the two factors, the validity flag, the other
    loaded tables and every derived scalar are those of [s0]. *)
Definition filter_frame {F} (s0 s : NoiseWall F) : Prop :=
  f_signal_min s = f_signal_min s0 /\ f_signal_max s = f_signal_max s0 /\
  noiseReduction s = noiseReduction s0 /\
  consciousEEGgain s = consciousEEGgain s0 /\ dataok s = dataok s0 /\
  pureEEGVar s = pureEEGVar s0 /\ noiseVarMin s = noiseVarMin s0 /\
  noiseVarMax s = noiseVarMax s0 /\ rho s = rho s0 /\
  SNRwall s = SNRwall s0 /\ consciousEEGvar s = consciousEEGvar s0 /\
  SNR s = SNR s0 /\
  match loaded s0, loaded s with
  | Some r0, Some r =>
      zero_data r = zero_data r0 /\ zero_video r = zero_video r0 /\
      artefact r = artefact r0 /\ relaxed r = relaxed r0 /\ fs r = fs r0
  | None, None => True
  | _, _ => False
  end.

(** [s] has the inputs of [s0]: the loaded recording with its signal, the
    transfer function, the validity flag and the two factors. *)
Definition same_inputs {F} (s0 s : NoiseWall F) : Prop :=
  loaded s = loaded s0 /\
  eegFilterFrequencyResponse s = eegFilterFrequencyResponse s0 /\
  dataok s = dataok s0 /\ noiseReduction s = noiseReduction s0 /\
  consciousEEGgain s = consciousEEGgain s0.

(** * Properties *)

Ltac run :=
  unfold bind, ret, raise, gets, modify, getattr, lift_opt, lift_sum; cbn.

(** ** Rules for triples *)

Section TripleRules.
Context {S : Type}.

Lemma triple_bind {A B} (P : S -> Prop) (m : M S A) (Q : A -> S -> Prop)
    (k : A -> M S B) (R : B -> S -> Prop) (E : S -> Prop) :
  triple P m Q E -> (forall a, triple (Q a) (k a) R E) ->
  triple P (bind m k) R E.
Proof.
  intros Hm Hk s Hs. unfold bind. specialize (Hm s Hs).
  destruct (m s) as [[e|a] s']; [exact Hm|]. exact (Hk a s' Hm).
Qed.

Lemma keeps_bind {A B} (I : S -> Prop) (m : M S A) (k : A -> M S B) :
  keeps I m -> (forall a, keeps I (k a)) -> keeps I (bind m k).
Proof. intros Hm Hk. apply triple_bind with (Q := fun _ => I); assumption. Qed.

Lemma keeps_ret {A} (I : S -> Prop) (a : A) : keeps I (ret a).
Proof. intros s Hs. exact Hs. Qed.

Lemma keeps_raise {A} (I : S -> Prop) (e : exn) : keeps I (@raise S A e).
Proof. intros s Hs. exact Hs. Qed.

Lemma keeps_gets {A} (I : S -> Prop) (f : S -> A) : keeps I (gets f).
Proof. intros s Hs. exact Hs. Qed.

Lemma keeps_getattr {A} (I : S -> Prop) (n : string) (f : S -> option A) :
  keeps I (getattr n f).
Proof. intros s Hs. unfold getattr. destruct (f s); exact Hs. Qed.

Lemma keeps_lift_opt {A} (I : S -> Prop) (e : exn) (o : option A) :
  keeps I (lift_opt e o).
Proof. destruct o; [apply keeps_ret|apply keeps_raise]. Qed.

Lemma keeps_lift_sum {A} (I : S -> Prop) (o : exn + A) :
  keeps I (lift_sum o).
Proof. destruct o; [apply keeps_raise|apply keeps_ret]. Qed.

Lemma keeps_modify (I : S -> Prop) (f : S -> S) :
  (forall s, I s -> I (f s)) -> keeps I (modify f).
Proof. intros H s Hs. exact (H s Hs). Qed.

Lemma keeps_if {A} (I : S -> Prop) (c : bool) (m1 m2 : M S A) :
  keeps I m1 -> keeps I m2 -> keeps I (if c then m1 else m2).
Proof. destruct c; auto. Qed.
End TripleRules.

Create HintDb keeps.
#[export] Hint Resolve keeps_ret keeps_raise keeps_gets keeps_getattr
  keeps_lift_opt keeps_lift_sum keeps_if : keeps.

Ltac keeps_steps :=
  repeat first
    [ apply keeps_bind; [|intros]
    | apply keeps_if
    | solve [eauto with keeps] ].

(** ** What the filter stages leave alone *)

Section Frame.
Context {F : Type} {ops : FloatOps F} (lib : SciLib F).

Lemma only_eeg_changed_refl (s : NoiseWall F) : only_eeg_changed s s.
Proof. repeat split. Qed.

Lemma keeps_write_eeg (s0 : NoiseWall F) (x : list F) :
  keeps (only_eeg_changed s0) (write_eeg x).
Proof.
  apply keeps_modify. intros s Hs. destruct (loaded s); [|exact Hs].
  exact Hs.
Qed.

Lemma keeps_read_eeg (s0 : NoiseWall F) :
  keeps (only_eeg_changed s0) read_eeg.
Proof. unfold read_eeg. keeps_steps. Qed.

Lemma keeps_calcFrequencyResponse (I : NoiseWall F -> Prop)
    (b a h_in : list F) :
  keeps I (calcFrequencyResponse lib b a h_in).
Proof. unfold calcFrequencyResponse. keeps_steps. Qed.

Lemma keeps_design (I : NoiseWall F -> Prop) N Wn t :
  keeps I (design lib N Wn t).
Proof. unfold design. keeps_steps. Qed.

Hint Resolve keeps_write_eeg keeps_read_eeg keeps_calcFrequencyResponse
  keeps_design : keeps.

Lemma keeps_stagesAD (s0 : NoiseWall F) :
  keeps (only_eeg_changed s0) (stagesAD lib).
Proof.
  unfold stagesAD, stageA, stageB, stageC, stageD. keeps_steps.
Qed.
End Frame.

(** ** The constructor *)

Lemma marker_ok_iff (d : string) :
  marker_ok d = true <->
  d = "True"%string \/ d = "true"%string \/ d = "ok"%string \/ d = "OK"%string.
Proof.
  unfold marker_ok; cbn [existsb].
  rewrite !orb_true_iff, !String.eqb_eq. intuition discriminate.
Qed.

(** C5, as the code has it: the constructor records the recording as valid
    exactly when the marker token is one of the four spellings "True",
    "true", "ok", "OK", and loads the data exactly when it does. *)
Theorem init_dataok_exact_spellings {F} {ops : FloatOps F} (d : Dataset F) :
  (dataok (init d) = true <->
   In (all_exp_ok_dat d) ["True"; "true"; "ok"; "OK"]%string) /\
  loaded (init d) =
    if dataok (init d) then Some (loadDataFromFile d) else None.
Proof.
  split.
  - cbn [init dataok]. rewrite marker_ok_iff. cbn [In].
    intuition (try congruence; try contradiction).
  - reflexivity.
Qed.

(** C5, as stated, fails: "TRUE" and "Ok" match "true" and "ok" without
    regard to case, yet the constructor records the recording as
    invalid. *)
Lemma init_rejects_upper_case_marker :
  case_insensitive_valid "TRUE" = true /\
  dataok (init (Demo.dataset "TRUE")) = false /\
  case_insensitive_valid "Ok" = true /\
  dataok (init (Demo.dataset "Ok")) = false.
Proof. repeat split; reflexivity. Qed.

(** ** The orchestration *)

(** C6: on an object whose validity flag is false, [doAllCalcs] raises
    [NoiseWallException(DATA_INVALID)], and the object it leaves is the one
    it was given with only the two band attributes assigned: no variance,
    rho, wall or SNR attribute is produced. *)
Theorem doAllCalcs_invalid {F} {ops : FloatOps F} (lib : SciLib F)
    (s : NoiseWall F) (lo hi : Z) :
  dataok s = false ->
  doAllCalcs lib lo hi s =
    (inl (NoiseWallException DATA_INVALID), set_f_signal lo hi s).
Proof.
  intros H. unfold doAllCalcs; run. rewrite H. reflexivity.
Qed.

Lemma doAllCalcs_invalid_witness :
  dataok Demo.invalid = false /\
  doAllCalcs (Demo.lib (Demo.const 0%R) (Demo.const 0%R)) 1 95 Demo.invalid =
    (inl (NoiseWallException DATA_INVALID), set_f_signal 1 95 Demo.invalid).
Proof.
  split; [reflexivity|]. apply doAllCalcs_invalid. reflexivity.
Defined.

(** ** The band selection that assigns no transfer function *)

Lemma arange_cons (lo hi : Z) :
  (lo < hi)%Z -> arange lo hi = lo :: arange (lo + 1) hi.
Proof.
  intros H. unfold arange.
  replace (Z.to_nat (hi - lo)) with (S (Z.to_nat (hi - (lo + 1)))) by lia.
  cbn [seq map]. f_equal; [lia|].
  rewrite <- seq_shift, map_map. apply map_ext. intros k. lia.
Qed.

Section Unset.
Context {F : Type} {ops : FloatOps F} (lib : SciLib F).

Lemma readParalysed_unset (fn : string) (t : NoiseWall F) :
  eegFilterFrequencyResponse t = None ->
  (f_signal_min t < f_signal_max t)%Z ->
  exists e, readParalysedEEGVarianceFromWhithamEtAl lib fn t = (inl e, t).
Proof.
  intros Hnone Hband. unfold readParalysedEEGVarianceFromWhithamEtAl.
  unfold bind at 1. destruct (loadtxt_psd lib fn) as [a|]; cbn;
    [|eexists; reflexivity].
  unfold bind at 1.
  destruct (interp1d_cubic lib (map fst a) (map snd a)) as [psd|]; cbn;
    [|eexists; reflexivity].
  run. rewrite (arange_cons Hband). cbn [bandpower_loop]. run.
  destruct (psd (of_Z (f_signal_min t))); cbn; [|eexists; reflexivity].
  rewrite Hnone. eexists; reflexivity.
Qed.

Lemma calculateParalysedEEGVariance_unset (t : NoiseWall F) :
  eegFilterFrequencyResponse t = None ->
  (f_signal_min t < f_signal_max t)%Z ->
  exists e, calculateParalysedEEGVariance lib t =
              (inl e, set_pureEEGVar (of_Z 0) t).
Proof.
  intros Hnone Hband.
  destruct (@readParalysed_unset "sub1a.dat" (set_pureEEGVar (of_Z 0) t))
    as [e He]; [exact Hnone|exact Hband|].
  exists e. unfold calculateParalysedEEGVariance, addParalysedEEGVariance.
  unfold bind at 1. unfold modify at 1.
  unfold bind at 1. unfold bind at 1. unfold getattr at 1.
  cbn [pureEEGVar set_pureEEGVar].
  unfold bind at 1. rewrite He. reflexivity.
Qed.

Lemma stageE_fallback (bl bh : F) (fresp : list F) (s : NoiseWall F) :
  (bl <. of_Z 0) = false ->
  ((of_Z 0 <. bh) && (of_Z 0 <. bl) && (bl <. bh)) = false ->
  stageE lib bl bh fresp s = (inr tt, s).
Proof. intros H1 H2. unfold stageE. rewrite H1, H2. reflexivity. Qed.

Lemma filterData_fallback_frame (bl bh : F) (s : NoiseWall F) :
  (bl <. of_Z 0) = false ->
  ((of_Z 0 <. bh) && (of_Z 0 <. bl) && (bl <. bh)) = false ->
  only_eeg_changed s (snd (filterData lib bl bh s)).
Proof.
  intros H1 H2. unfold filterData, bind.
  pose proof (@keeps_stagesAD F ops lib s s (only_eeg_changed_refl s)) as K.
  destruct (stagesAD lib s) as [[e|fresp] s1]; [exact K|].
  rewrite stageE_fallback by assumption. exact K.
Qed.
End Unset.

(** C8: when [band_low] is not negative and the band-pass test fails (the
    default [filterData(0, 0)] included), [filterData] does not assign
    [eegFilterFrequencyResponse], whether it returns or raises: the
    attribute is what it was before the call. On an object that had none
    it is still unset, and a reference-variance computation that reads it
    (non-empty signal band) raises instead of returning. *)
Theorem filterData_fallback_leaves_response_unset {F} {ops : FloatOps F}
    (lib : SciLib F) (s : NoiseWall F) (band_low band_high : F) :
  (band_low <. of_Z 0) = false ->
  ((of_Z 0 <. band_high) && (of_Z 0 <. band_low)
   && (band_low <. band_high)) = false ->
  let s' := snd (filterData lib band_low band_high s) in
  eegFilterFrequencyResponse s' = eegFilterFrequencyResponse s /\
  (eegFilterFrequencyResponse s = None ->
   (f_signal_min s < f_signal_max s)%Z ->
   eegFilterFrequencyResponse s' = None /\
   exists e, fst (calculateParalysedEEGVariance lib s') = inl e).
Proof.
  intros H1 H2 s'.
  pose proof (filterData_fallback_frame lib band_low band_high s H1 H2) as K.
  fold s' in K. destruct K as (Kmin & Kmax & _ & Kresp & _).
  split; [exact Kresp|]. intros Hnone Hband. split; [congruence|].
  destruct (@calculateParalysedEEGVariance_unset F ops lib s') as [e He];
    [congruence|lia|].
  exists e. rewrite He. reflexivity.
Qed.

(** ** Comparisons on the reals *)

Lemma Rltb_true (x y : R) : Rltb x y = true <-> (x < y)%R.
Proof. unfold Rltb. destruct (Rlt_dec x y); intuition discriminate. Qed.

Lemma Rltb_false (x y : R) : Rltb x y = false <-> (y <= x)%R.
Proof.
  unfold Rltb. destruct (Rlt_dec x y); split; intros; try discriminate;
    try reflexivity; lra.
Qed.

Lemma Rleb_true (x y : R) : Rleb x y = true <-> (x <= y)%R.
Proof. unfold Rleb. destruct (Rle_dec x y); intuition discriminate. Qed.

Lemma filterData_fallback_leaves_response_unset_witness :
  let L := Demo.lib (Demo.const 0%R) (Demo.const 0%R) in
  let s' := snd (filterData L 0%R 0%R Demo.valid) in
  eegFilterFrequencyResponse s' = None /\
  exists e, fst (calculateParalysedEEGVariance L s') = inl e.
Proof.
  intros L.
  assert ((0%R <. of_Z 0) = false) as H1 by (apply Rltb_false; cbn; lra).
  assert (((of_Z 0 <. 0%R) && (of_Z 0 <. 0%R) && (0%R <. 0%R)) = false)
    as H2
    by (apply andb_false_iff; left; apply andb_false_iff; left; exact H1).
  destruct (@filterData_fallback_leaves_response_unset R real_ops L
              Demo.valid 0%R 0%R H1 H2) as (_ & H).
  apply H; [reflexivity|]. cbn. lia.
Defined.

(** ** rho, the noise wall and the SNR *)

Section Wall.
Context (lib : SciLib R).
Open Scope R_scope.

Lemma calcRho_run (s : NoiseWall R) (vmin vmax : R) :
  noiseVarMin s = Some vmin -> noiseVarMax s = Some vmax ->
  calcRho s = (inr tt, set_rho (sqrt (vmax / vmin)) s).
Proof. intros Hmin Hmax. unfold calcRho; run. rewrite Hmax, Hmin. reflexivity. Qed.

Lemma calcNoiseWall_below (s : NoiseWall R) (r : R) :
  rho s = Some r -> r < 1 ->
  calcNoiseWall lib s =
    (inl (NoiseWallException MIN_VAR_LARGER_THAN_MAX_VAR), s).
Proof.
  intros Hr Hlt. unfold calcNoiseWall; run. rewrite Hr.
  replace (Rltb r 1) with true by (symmetry; now apply Rltb_true).
  reflexivity.
Qed.

Lemma calcNoiseWall_above (s : NoiseWall R) (r : R) :
  rho s = Some r -> 1 < r ->
  calcNoiseWall lib s =
    (inr tt, set_SNRwall (10 * log10 lib (r - 1 / r)) s).
Proof.
  intros Hr Hgt. unfold calcNoiseWall, math_log10; run. rewrite Hr.
  replace (Rltb r 1) with false by (symmetry; apply Rltb_false; lra).
  assert (0 < r - 1 / r) as Hpos.
  { assert (1 / r < 1); [|lra].
    apply Rmult_lt_reg_r with r; [lra|]. field_simplify; lra. }
  replace (Rltb 0 (r - 1 / r)) with true by (symmetry; now apply Rltb_true).
  reflexivity.
Qed.

Lemma calcNoiseWall_one (s : NoiseWall R) :
  rho s = Some 1 ->
  calcNoiseWall lib s = (inl (ValueError "math domain error"), s).
Proof.
  intros Hr. unfold calcNoiseWall, math_log10; run. rewrite Hr.
  replace (Rltb 1 1) with false by (symmetry; apply Rltb_false; lra).
  replace (1 - 1 / 1) with 0 by field.
  replace (Rltb 0 0) with false by (symmetry; apply Rltb_false; lra).
  replace (Rleb 0 0) with true by (symmetry; apply Rleb_true; lra).
  reflexivity.
Qed.
End Wall.

(** C1, as the code has it: with rho = sqrt(noiseVarMax / noiseVarMin) as
    [calcRho] stores it, [calcNoiseWall] returns and sets
    SNRwall = 10 * log10(rho - 1/rho) whenever rho > 1, and raises
    [NoiseWallException(MIN_VAR_LARGER_THAN_MAX_VAR)] whenever rho < 1.
    noiseVarMin is taken non-zero: only there is the quotient of the reals
    the quotient numpy computes. *)
Theorem calcNoiseWall_spec (lib : SciLib R) (s : NoiseWall R)
    (vmin vmax : R) :
  noiseVarMin s = Some vmin -> noiseVarMax s = Some vmax ->
  vmin <> 0%R ->
  let r := sqrt (vmax / vmin) in
  let s1 := set_rho r s in
  calcRho s = (inr tt, s1) /\
  ((1 < r)%R ->
   calcNoiseWall lib s1 =
     (inr tt, set_SNRwall (10 * log10 lib (r - 1 / r))%R s1)) /\
  ((r < 1)%R ->
   calcNoiseWall lib s1 =
     (inl (NoiseWallException MIN_VAR_LARGER_THAN_MAX_VAR), s1)).
Proof.
  intros Hmin Hmax _ r s1. split; [now apply calcRho_run|]. split; intros H.
  - apply (@calcNoiseWall_above lib s1 r); [reflexivity|exact H].
  - apply (@calcNoiseWall_below lib s1 r); [reflexivity|exact H].
Qed.

Lemma sqrt_4 : sqrt (4 / 1) = 2%R.
Proof. replace (4 / 1)%R with (2 * 2)%R by field. apply sqrt_square. lra. Qed.

Lemma sqrt_quarter : sqrt (1 / 4) = (1 / 2)%R.
Proof.
  replace (1 / 4)%R with ((1 / 2) * (1 / 2))%R by field.
  apply sqrt_square. lra.
Qed.

Lemma sqrt_1_1 : sqrt (1 / 1) = 1%R.
Proof. replace (1 / 1)%R with 1%R by field. apply sqrt_1. Qed.

Lemma calcNoiseWall_spec_witness :
  let L := Demo.lib (Demo.const 0%R) (Demo.const 0%R) in
  calcNoiseWall L (set_rho 2%R (Demo.measured 1 4)) =
    (inr tt, set_SNRwall (10 * (ln (2 - 1 / 2) / ln 10))%R
               (set_rho 2%R (Demo.measured 1 4))) /\
  calcNoiseWall L (set_rho (1 / 2)%R (Demo.measured 4 1)) =
    (inl (NoiseWallException MIN_VAR_LARGER_THAN_MAX_VAR),
     set_rho (1 / 2)%R (Demo.measured 4 1)).
Proof.
  intros L. split.
  - assert (1 <> 0)%R as Hnz by lra.
    pose proof (@calcNoiseWall_spec L (Demo.measured 1 4) 1%R 4%R
                  eq_refl eq_refl Hnz) as (_ & H & _).
    rewrite sqrt_4 in H. apply H. lra.
  - assert (4 <> 0)%R as Hnz by lra.
    pose proof (@calcNoiseWall_spec L (Demo.measured 4 1) 4%R 1%R
                  eq_refl eq_refl Hnz) as (_ & _ & H).
    rewrite sqrt_quarter in H. apply H. lra.
Defined.

(** C1, as stated, fails at rho = 1: both variances equal to 1 give
    rho = sqrt(1/1) = 1, which satisfies rho >= 1, and [calcNoiseWall]
    raises. *)
Lemma calcNoiseWall_raises_at_rho_one :
  let L := Demo.lib (Demo.const 0%R) (Demo.const 0%R) in
  let s1 := snd (calcRho (Demo.measured 1 1)) in
  rho s1 = Some 1%R /\ (1 <= 1)%R /\
  calcNoiseWall L s1 = (inl (ValueError "math domain error"), s1) /\
  SNRwall s1 = None.
Proof.
  intros L s1.
  assert (s1 = set_rho 1%R (Demo.measured 1 1)) as ->.
  { unfold s1. rewrite (@calcRho_run (Demo.measured 1 1) 1%R 1%R eq_refl eq_refl).
    cbn [snd]. now rewrite sqrt_1_1. }
  split; [reflexivity|]. split; [lra|]. split; [|reflexivity].
  now apply calcNoiseWall_one.
Qed.

(** C10: when rho is exactly 1 the guard [rho < 1] is false, the argument
    rho - 1/rho of the logarithm is zero, and [calcNoiseWall] raises the
    [ValueError] of [math.log10], which is no [NoiseWallException]; no
    wall is stored. Equal non-zero variances give exactly this rho. *)
Theorem calcNoiseWall_rho_one_untyped_error (lib : SciLib R)
    (s : NoiseWall R) :
  rho s = Some 1%R ->
  (1%R <. of_Z 1) = false /\
  (1 - 1 / 1)%R = 0%R /\
  calcNoiseWall lib s = (inl (ValueError "math domain error"), s) /\
  is_NoiseWallException (ValueError "math domain error") = false /\
  (forall v : R, v <> 0%R ->
     noiseVarMin s = Some v -> noiseVarMax s = Some v ->
     calcRho s = (inr tt, set_rho 1%R s)).
Proof.
  intros Hr. split; [apply Rltb_false; cbn; lra|]. split; [field|].
  split; [now apply calcNoiseWall_one|]. split; [reflexivity|].
  intros v Hv Hmin Hmax. rewrite (calcRho_run s Hmin Hmax).
  replace (v / v)%R with 1%R by (field; exact Hv). now rewrite sqrt_1.
Qed.

Lemma calcNoiseWall_rho_one_untyped_error_witness :
  calcNoiseWall (Demo.lib (Demo.const 0%R) (Demo.const 0%R))
    (set_rho 1%R (Demo.measured 1 1)) =
  (inl (ValueError "math domain error"), set_rho 1%R (Demo.measured 1 1)).
Proof.
  apply (@calcNoiseWall_rho_one_untyped_error
           (Demo.lib (Demo.const 0%R) (Demo.const 0%R))
           (set_rho 1%R (Demo.measured 1 1)) eq_refl).
Defined.

(** The same run in binary64, whatever the library: 1.0 / 1.0 = 1.0,
    sqrt(1.0) = 1.0, 1.0 - 1.0/1.0 = 0.0, and [math.log10(0.0)] raises. *)
Example calcNoiseWall_rho_one_binary64 (lib : SciLib PrimFloat.float) :
  let s1 := snd (calcRho (measured64 1 1)) in
  rho s1 = Some (of_Z 1) /\
  calcNoiseWall lib s1 = (inl (ValueError "math domain error"), s1).
Proof. split; reflexivity. Qed.

(** C2, as the code has it: for noiseVarMin > 0 and noiseVarMax >= 0 the
    noise-floor variance of [calcSNR], noiseVarMin * rho, is the geometric
    mean sqrt(noiseVarMin * noiseVarMax) of the two variances; it equals
    noiseVarMax exactly when noiseVarMax = noiseVarMin or noiseVarMax = 0. *)
Theorem noiseVariance_geometric_mean (s : NoiseWall R) (vmin vmax : R) :
  noiseVarMin s = Some vmin -> noiseVarMax s = Some vmax ->
  (0 < vmin)%R -> (0 <= vmax)%R ->
  exists r : R,
    rho (snd (calcRho s)) = Some r /\
    noiseVariance vmin r = sqrt (vmin * vmax) /\
    (noiseVariance vmin r = vmax <-> vmax = vmin \/ vmax = 0%R).
Proof.
  intros Hmin Hmax Hpos Hnn. exists (sqrt (vmax / vmin)).
  rewrite (calcRho_run s Hmin Hmax). split; [reflexivity|].
  assert (noiseVariance vmin (sqrt (vmax / vmin)) = sqrt (vmin * vmax)) as E.
  { unfold noiseVariance; cbn.
    rewrite <- (sqrt_square vmin) at 1 by lra.
    rewrite <- sqrt_mult_alt by nra. f_equal. field. lra. }
  split; [exact E|]. rewrite E. split.
  - intros H. assert (vmin * vmax = vmax * vmax)%R as Hsq.
    { rewrite <- H at 2 3. rewrite sqrt_sqrt; nra. }
    assert (vmax * (vmin - vmax) = 0)%R as Hz by lra.
    apply Rmult_integral in Hz. destruct Hz; [right|left]; lra.
  - intros [-> | ->].
    + apply sqrt_square. lra.
    + rewrite Rmult_0_r. apply sqrt_0.
Qed.

Lemma noiseVariance_geometric_mean_witness :
  exists r : R,
    rho (snd (calcRho (Demo.measured 1 4))) = Some r /\
    noiseVariance 1%R r = sqrt (1 * 4) /\
    (noiseVariance 1%R r = 4%R <-> 4%R = 1%R \/ 4%R = 0%R).
Proof.
  apply (@noiseVariance_geometric_mean (Demo.measured 1 4) 1%R 4%R
           eq_refl eq_refl); lra.
Defined.

(** C2, as stated, fails: with noiseVarMin = 1 and noiseVarMax = 4,
    rho = 2 and the noise-floor variance is 1 * 2 = 2, not 4. *)
Lemma noiseVariance_is_not_max_variance :
  let s1 := snd (calcRho (Demo.measured 1 4)) in
  (0 < 1)%R /\ (0 <= 4)%R /\
  rho s1 = Some 2%R /\ noiseVariance 1%R 2%R = 2%R /\
  noiseVariance 1%R 2%R <> 4%R.
Proof.
  intros s1. split; [lra|]. split; [lra|].
  unfold s1. rewrite (@calcRho_run (Demo.measured 1 4) 1%R 4%R eq_refl eq_refl).
  cbn [snd set_rho rho]. rewrite sqrt_4.
  split; [reflexivity|]. unfold noiseVariance; cbn. split; lra.
Qed.

(** The same numbers in binary64: 4.0 / 1.0 = 4.0, sqrt(4.0) = 2.0 and
    1.0 * 2.0 = 2.0, all exact. *)
Example noiseVariance_binary64 :
  rho (snd (calcRho (measured64 1 4))) = Some (of_Z 2) /\
  noiseVariance (of_Z 1) (of_Z 2) = (of_Z 2 : PrimFloat.float).
Proof. split; reflexivity. Qed.

(** ** The minimum noise variance *)

Lemma Rtrunc_IZR (z : Z) : Rtrunc (IZR z) = z.
Proof.
  unfold Rtrunc. destruct (Rle_dec 0 (IZR z)).
  - symmetry. apply Int_part_spec. lra.
  - rewrite <- opp_IZR. rewrite <- (Int_part_spec (IZR (- z)) (- z)); [lia|lra].
Qed.

Lemma getMinNoiseVarEEGChunk_pure {F} {ops : FloatOps F} (s : NoiseWall F) :
  snd (getMinNoiseVarEEGChunk s) = s.
Proof.
  assert (keeps (fun t => t = s) (@getMinNoiseVarEEGChunk F ops)) as K.
  { unfold getMinNoiseVarEEGChunk. keeps_steps. }
  specialize (K s eq_refl).
  destruct (getMinNoiseVarEEGChunk s) as [[e|c] s']; exact K.
Qed.

Lemma lit_50E_6_real : @lit_50E_6 R real_ops = 50e-6%R.
Proof. unfold lit_50E_6; cbn. lra. Qed.

(** C7: with v the variance of the quiet-window chunk divided by the
    noise-reduction factor, [calcNoiseVarMin] stores v as noiseVarMin in
    every case; it raises MIN_VAR_NEG when v is negative, raises
    MIN_VAR_UNUSUALLY_HIGH exactly when the square root of v exceeds 50e-6,
    and returns without raising exactly in the remaining case. *)
Theorem calcNoiseVarMin_spec (lib : SciLib R) (s : NoiseWall R)
    (chunk : list R) :
  fst (getMinNoiseVarEEGChunk s) = inr chunk ->
  let v := np_var lib (map (fun y => y / noiseReduction s)%R chunk) in
  let out := calcNoiseVarMin lib s in
  snd out = set_noiseVarMin v s /\
  ((v < 0)%R -> fst out = inl (NoiseWallException MIN_VAR_NEG)) /\
  (fst out = inl (NoiseWallException MIN_VAR_UNUSUALLY_HIGH) <->
   (50e-6 < sqrt v)%R) /\
  (fst out = inr tt <-> (0 <= v)%R /\ (sqrt v <= 50e-6)%R).
Proof.
  intros Hchunk v out.
  assert (getMinNoiseVarEEGChunk s = (inr chunk, s)) as Hrun.
  { rewrite <- (getMinNoiseVarEEGChunk_pure s) at 2. rewrite <- Hchunk.
    now destruct (getMinNoiseVarEEGChunk s). }
  assert (exists lim : R, lim = 50e-6%R /\ @lit_50E_6 R real_ops = lim)
    as (lim & Hlim & Elim) by (eexists; split; [reflexivity|apply lit_50E_6_real]).
  assert (out =
    if Rltb v 0 then (inl (NoiseWallException MIN_VAR_NEG), set_noiseVarMin v s)
    else if Rltb lim (sqrt v)
         then (inl (NoiseWallException MIN_VAR_UNUSUALLY_HIGH),
               set_noiseVarMin v s)
         else (inr tt, set_noiseVarMin v s)) as ->.
  { unfold out, calcNoiseVarMin. rewrite Elim. unfold bind at 1. rewrite Hrun.
    run. fold v.
    destruct (Rltb v 0); [reflexivity|].
    destruct (Rltb lim (sqrt v)); reflexivity. }
  clear Elim. subst lim.
  destruct (Rltb v 0) eqn:Hneg.
  - apply Rltb_true in Hneg.
    assert (sqrt v = 0%R) as Hs by (apply sqrt_neg_0; lra).
    cbn [fst snd]. split; [reflexivity|]. split; [reflexivity|].
    split; split; intros H; try discriminate; lra.
  - apply Rltb_false in Hneg. destruct (Rltb 50e-6 (sqrt v)) eqn:Hhigh.
    + apply Rltb_true in Hhigh. cbn [fst snd].
      split; [reflexivity|]. split; [intros; lra|].
      split; split; intros H; try discriminate; try reflexivity; lra.
    + apply Rltb_false in Hhigh. cbn [fst snd].
      split; [reflexivity|]. split; [intros; lra|].
      split; split; intros H; try discriminate; try reflexivity; lra.
Qed.

Lemma quiet_chunk_demo :
  getMinNoiseVarEEGChunk Demo.valid =
    (inr [250 / 500 * 2; 500 / 500 * 2]%R, Demo.valid).
Proof.
  unfold getMinNoiseVarEEGChunk; run.
  change (Pos.to_nat 1) with 1%nat; run.
  replace (1000 * (0 + (0 - 0)))%R with (IZR 0) by lra.
  replace (1000 * (2 / 1000 + (0 - 0)))%R with (IZR 2) by lra.
  rewrite !Rtrunc_IZR. reflexivity.
Qed.

Lemma calcNoiseVarMin_spec_witness :
  fst (calcNoiseVarMin (Demo.lib (Demo.const (-1)%R) (Demo.const 0%R))
         Demo.valid) = inl (NoiseWallException MIN_VAR_NEG) /\
  fst (calcNoiseVarMin (Demo.lib (Demo.const 1%R) (Demo.const 0%R))
         Demo.valid) = inl (NoiseWallException MIN_VAR_UNUSUALLY_HIGH) /\
  calcNoiseVarMin (Demo.lib (Demo.const 1e-12%R) (Demo.const 0%R))
    Demo.valid = (inr tt, set_noiseVarMin 1e-12%R Demo.valid).
Proof.
  assert (fst (getMinNoiseVarEEGChunk Demo.valid) =
          inr [250 / 500 * 2; 500 / 500 * 2]%R) as Hc
    by (rewrite quiet_chunk_demo; reflexivity).
  split; [|split].
  - apply (@calcNoiseVarMin_spec
             (Demo.lib (Demo.const (-1)%R) (Demo.const 0%R)) _ _ Hc).
    unfold Demo.const; cbn. lra.
  - apply (@calcNoiseVarMin_spec
             (Demo.lib (Demo.const 1%R) (Demo.const 0%R)) _ _ Hc).
    unfold Demo.const; cbn. rewrite sqrt_1. lra.
  - pose proof (@calcNoiseVarMin_spec
             (Demo.lib (Demo.const 1e-12%R) (Demo.const 0%R)) _ _ Hc) as H.
    cbv zeta in H. destruct H as (Hst & _ & _ & Hok).
    rewrite (surjective_pairing (calcNoiseVarMin _ Demo.valid)).
    f_equal; [|exact Hst]. apply Hok.
    change (np_var (Demo.lib (Demo.const 1e-12%R) (Demo.const 0%R)) _)
      with 1e-12%R.
    split; [lra|].
    replace 1e-12%R with (1e-6 * 1e-6)%R by lra.
    rewrite sqrt_square; lra.
Defined.

(** ** Running the filter stages *)

Section Stages.
Context {F : Type} {ops : FloatOps F} (lib : SciLib F).

Lemma magnitude_length (b a : list F) (n : nat) :
  length (magnitude lib b a n) = n.
Proof. unfold magnitude. now rewrite length_map, length_seq. Qed.

Lemma zipWith_length {A B C} (f : A -> B -> C) (xs : list A) (ys : list B) :
  length xs = length ys -> length (zipWith f xs ys) = length ys.
Proof.
  revert ys. induction xs as [|x xs IH]; intros [|y ys] H; cbn in *;
    try discriminate; auto.
Qed.

Lemma calcFrequencyResponse_first (b a : list F) (s : NoiseWall F)
    (r : Recording F) :
  loaded s = Some r ->
  calcFrequencyResponse lib b a [] s = (inr (magnitude lib b a (worN r)), s).
Proof. intros H. unfold calcFrequencyResponse; run. now rewrite H. Qed.

Lemma calcFrequencyResponse_next (b a h : list F) (s : NoiseWall F)
    (r : Recording F) :
  loaded s = Some r -> length h = worN r ->
  calcFrequencyResponse lib b a h s =
    (inr (zipWith fmul (magnitude lib b a (worN r)) h), s).
Proof.
  intros H Hlen. unfold calcFrequencyResponse; run. rewrite H. cbn.
  fold (worN r). destruct h as [|x h]; [|reflexivity].
  cbn in Hlen. rewrite <- Hlen. reflexivity.
Qed.

Lemma stageA_run (s : NoiseWall F) (r : Recording F) (lp : list F * list F) :
  loaded s = Some r -> LP lib r = Some lp ->
  stageA lib s =
    (inr (magnitude lib (fst lp) (snd lp) (worN r)),
     set_loaded (set_eeg (lfilter lib (fst lp) (snd lp) (eeg r)) r) s).
Proof.
  intros H Hlp. unfold stageA, design, read_eeg, write_eeg.
  unfold bind at 1. unfold getattr at 1. rewrite H.
  unfold LP in Hlp. unfold bind at 1. rewrite Hlp. cbn [lift_opt].
  unfold ret at 1. unfold bind at 1. unfold bind at 1.
  unfold getattr at 1. rewrite H. unfold ret at 1.
  unfold bind at 1. unfold modify at 1. rewrite H.
  now rewrite (@calcFrequencyResponse_first _ _ _
                 (set_eeg (lfilter lib (fst lp) (snd lp) (eeg r)) r)).
Qed.

Lemma stageB_run (h : list F) (s : NoiseWall F) (r : Recording F)
    (n50 hp : list F * list F) :
  loaded s = Some r -> N50 lib r = Some n50 -> HP lib r = Some hp ->
  length h = worN r ->
  stageB lib h s =
    (inr (zipWith fmul (magnitude lib (fst hp) (snd hp) (worN r)) h),
     set_loaded
       (set_eeg (lfilter lib (fst hp) (snd hp)
                   (lfilter lib (fst n50) (snd n50) (eeg r))) r) s).
Proof.
  intros H Hn Hhp Hlen. unfold stageB, design, read_eeg, write_eeg.
  unfold bind at 1. unfold getattr at 1. rewrite H.
  unfold N50 in Hn. unfold bind at 1. rewrite Hn. cbn [lift_opt].
  unfold ret at 1.
  unfold HP in Hhp. unfold bind at 1. rewrite Hhp. cbn [lift_opt].
  unfold ret at 1. unfold bind at 1. unfold bind at 1.
  unfold getattr at 1. rewrite H. unfold ret at 1.
  unfold bind at 1. unfold modify at 1. rewrite H.
  now rewrite (@calcFrequencyResponse_next _ _ h _
     (set_eeg (lfilter lib (fst hp) (snd hp)
                 (lfilter lib (fst n50) (snd n50) (eeg r))) r)).
Qed.

Lemma stageC_run (h : list F) (s : NoiseWall F) (r : Recording F)
    (n25 : list F * list F) :
  loaded s = Some r -> N25 lib r = Some n25 -> length h = worN r ->
  stageC lib h s =
    (inr (zipWith fmul (magnitude lib (fst n25) (snd n25) (worN r)) h),
     set_loaded (set_eeg (lfilter lib (fst n25) (snd n25) (eeg r)) r) s).
Proof.
  intros H Hn Hlen. unfold stageC, design, read_eeg, write_eeg.
  unfold bind at 1. unfold getattr at 1. rewrite H.
  unfold N25 in Hn. unfold bind at 1. rewrite Hn. cbn [lift_opt].
  unfold ret at 1. unfold bind at 1. unfold bind at 1.
  unfold getattr at 1. rewrite H. unfold ret at 1.
  unfold bind at 1. unfold modify at 1. rewrite H.
  now rewrite (@calcFrequencyResponse_next _ _ h _
     (set_eeg (lfilter lib (fst n25) (snd n25) (eeg r)) r)).
Qed.

Lemma stageD_run (h : list F) (s : NoiseWall F) (r : Recording F)
    (n50 : list F * list F) :
  loaded s = Some r -> N50 lib r = Some n50 -> length h = worN r ->
  stageD lib h s =
    (inr (zipWith fmul (magnitude lib (fst n50) (snd n50) (worN r)) h),
     set_loaded (set_eeg (lfilter lib (fst n50) (snd n50) (eeg r)) r) s).
Proof.
  intros H Hn Hlen. unfold stageD, design, read_eeg, write_eeg.
  unfold bind at 1. unfold getattr at 1. rewrite H.
  unfold N50 in Hn. unfold bind at 1. rewrite Hn. cbn [lift_opt].
  unfold ret at 1. unfold bind at 1. unfold bind at 1.
  unfold getattr at 1. rewrite H. unfold ret at 1.
  unfold bind at 1. unfold modify at 1. rewrite H.
  now rewrite (@calcFrequencyResponse_next _ _ h _
     (set_eeg (lfilter lib (fst n50) (snd n50) (eeg r)) r)).
Qed.

(** What stages A to D compute when the four designs succeed: the signal
    has gone through five filters, the accumulator through four. *)
Lemma stagesAD_run (s : NoiseWall F) (r : Recording F)
    (lp hp n50 n25 : list F * list F) :
  loaded s = Some r ->
  LP lib r = Some lp -> HP lib r = Some hp ->
  N50 lib r = Some n50 -> N25 lib r = Some n25 ->
  stagesAD lib s =
    (inr (cascade_response lib (worN r) [lp; hp; n25; n50]),
     set_loaded
       (set_eeg (cascade_signal lib [lp; n50; hp; n25; n50] (eeg r)) r) s).
Proof.
  intros H Hlp Hhp Hn50 Hn25. unfold stagesAD.
  unfold bind at 1. rewrite (stageA_run s H Hlp).
  set (s1 := set_loaded _ s). set (r1 := set_eeg _ r) in s1.
  unfold bind at 1.
  rewrite (@stageB_run _ s1 r1 n50 hp eq_refl Hn50 Hhp)
    by apply magnitude_length.
  set (s2 := set_loaded _ s1). set (r2 := set_eeg _ r1) in s2.
  unfold bind at 1.
  rewrite (@stageC_run _ s2 r2 n25 eq_refl Hn25)
    by (repeat (rewrite zipWith_length || rewrite magnitude_length);
        reflexivity).
  set (s3 := set_loaded _ s2). set (r3 := set_eeg _ r2) in s3.
  rewrite (@stageD_run _ s3 r3 n50 eq_refl Hn50)
    by (repeat (rewrite zipWith_length || rewrite magnitude_length);
        reflexivity).
  reflexivity.
Qed.
End Stages.

Lemma nth_zipWith {A B C} (f : A -> B -> C) (xs : list A) (ys : list B)
    (k : nat) (d : C) (dx : A) (dy : B) :
  (k < length xs)%nat -> (k < length ys)%nat ->
  nth k (zipWith f xs ys) d = f (nth k xs dx) (nth k ys dy).
Proof.
  revert ys k. induction xs as [|x xs IH]; intros [|y ys] [|k] Hx Hy;
    cbn in *; try lia; [reflexivity|]. apply IH; lia.
Qed.

Lemma nth_magnitude {F} {ops : FloatOps F} (lib : SciLib F) (b a : list F)
    (n k : nat) (d : F) :
  (k < n)%nat -> nth k (magnitude lib b a n) d = cabs (freqz lib b a n k).
Proof.
  intros H. unfold magnitude.
  rewrite (nth_indep _ d (cabs (freqz lib b a n 0))) by
    (now rewrite length_map, length_seq).
  rewrite (map_nth (fun k => cabs (freqz lib b a n k))).
  now rewrite seq_nth.
Qed.

Lemma cabs_gain (g : R) : (0 <= g)%R -> cabs (Cplx g 0%R) = g.
Proof.
  intros H. unfold cabs; cbn.
  replace (g * g + 0 * 0)%R with (g * g)%R by ring. now apply sqrt_square.
Qed.

Lemma demo_sample (L : SciLib R) (g : R) (k : nat) :
  freqz L = Demo.freqz0 -> (0 <= g)%R -> (k < 500)%nat ->
  nth k (magnitude L (fst (Demo.gain g)) (snd (Demo.gain g)) 500) 0%R = g.
Proof.
  intros HL Hg Hk. rewrite nth_magnitude by exact Hk. rewrite HL.
  unfold Demo.freqz0, Demo.gain; cbn [fst snd hd].
  replace (g / 1)%R with g by field. now apply cabs_gain.
Qed.

(** Whatever the library, the product over the five filters applied is
    [fresp] times the response of the notch once more: the two agree at a
    frequency only where [fresp] is zero or the notch has gain 1. *)
Lemma applied_response_is_fresp_times_notch (lib : SciLib R) (n k : nat)
    (lp hp n25 n50 : list R * list R) :
  (k < n)%nat ->
  nth k (cascade_response lib n [lp; n50; hp; n25; n50]) 0%R =
  (nth k (cascade_response lib n [lp; hp; n25; n50]) 0%R
   * cabs (freqz lib (fst n50) (snd n50) n k))%R.
Proof.
  intros Hk. unfold cascade_response. cbn [fold_left].
  repeat (rewrite (@nth_zipWith _ _ _ _ _ _ k 0%R 0%R 0%R)
            by (repeat (rewrite zipWith_length || rewrite magnitude_length);
                try reflexivity; lia)).
  rewrite !nth_magnitude by exact Hk. cbn [fmul real_ops]. ring.
Qed.

(** C3 fails on the code: stages A to D pass the signal through five
    filters (lowpass, 50 Hz notch, highpass, 25 Hz notch, 50 Hz notch) and
    multiply the responses of only four into [fresp]; the notch of stage B
    is left out. With a library whose notches have gain 1/2 and whose other
    filters have gain 1, [fresp] is 1/4 at 49 Hz where the product over
    the filters applied is 1/8. *)
Theorem stagesAD_omits_stageB_notch :
  let L := Demo.lib (Demo.const 0%R) (Demo.const 0%R) in
  let out := stagesAD L Demo.valid in
  fst out = inr (cascade_response L 500 Demo.folded) /\
  loaded (snd out) =
    Some (set_eeg (cascade_signal L Demo.applied (eeg Demo.recording))
            Demo.recording) /\
  nth 49 (cascade_response L 500 Demo.folded) 0%R = (1 / 4)%R /\
  nth 49 (cascade_response L 500 Demo.applied) 0%R = (1 / 8)%R.
Proof.
  intros L out.
  assert (out = (inr (cascade_response L 500 Demo.folded),
                 set_loaded
                   (set_eeg (cascade_signal L Demo.applied
                               (eeg Demo.recording)) Demo.recording)
                   Demo.valid)) as ->.
  { unfold out.
    apply (@stagesAD_run R real_ops L Demo.valid Demo.recording
             (Demo.gain 1) (Demo.gain 1) (Demo.gain (1 / 2))
             (Demo.gain (1 / 2))); reflexivity. }
  split; [reflexivity|]. split; [reflexivity|].
  assert (forall g k, (0 <= g)%R -> (k < 500)%nat ->
            nth k (magnitude L (fst (Demo.gain g)) (snd (Demo.gain g)) 500)
              0%R = g) as Hs
    by (intros; now apply demo_sample).
  unfold cascade_response, Demo.folded, Demo.applied. cbn [fold_left].
  split.
  - repeat (rewrite (@nth_zipWith _ _ _ _ _ _ 49 0%R 0%R 0%R)
              by (repeat (rewrite zipWith_length || rewrite magnitude_length);
                  try reflexivity; lia)).
    rewrite !Hs by (try lra; lia). cbn. lra.
  - repeat (rewrite (@nth_zipWith _ _ _ _ _ _ 49 0%R 0%R 0%R)
              by (repeat (rewrite zipWith_length || rewrite magnitude_length);
                  try reflexivity; lia)).
    rewrite !Hs by (try lra; lia). cbn. lra.
Qed.

(** ** The accumulated response is never negative *)

Section Nonneg.
Context (lib : SciLib R).

Lemma cabs_nonneg (z : complex R) : (0 <= cabs z)%R.
Proof. unfold cabs; cbn. apply sqrt_pos. Qed.

Lemma magnitude_nonneg (b a : list R) (n : nat) :
  nonneg (magnitude lib b a n).
Proof.
  unfold nonneg, magnitude. apply Forall_forall. intros x Hx.
  apply in_map_iff in Hx. destruct Hx as (k & <- & _). apply cabs_nonneg.
Qed.

Lemma zipWith_mul_nonneg (xs ys : list R) :
  nonneg xs -> nonneg ys -> nonneg (zipWith fmul xs ys).
Proof.
  unfold nonneg. intros Hx. revert ys.
  induction Hx as [|x xs Hx0 Hx IH]; intros ys Hy; [constructor|].
  destruct Hy as [|y ys Hy0 Hy]; cbn [zipWith]; constructor.
  - cbn. now apply Rmult_le_pos.
  - now apply IH.
Qed.

Lemma calcFrequencyResponse_nonneg (I : NoiseWall R -> Prop)
    (b a h_in : list R) :
  nonneg h_in ->
  triple I (calcFrequencyResponse lib b a h_in)
    (fun fresp s => nonneg fresp /\ I s) I.
Proof.
  intros Hh s Hs. unfold calcFrequencyResponse, bind, getattr.
  destruct (loaded s); [|exact Hs].
  destruct (length h_in <? 1)%nat; unfold ret; (split; [|exact Hs]).
  - apply magnitude_nonneg.
  - apply zipWith_mul_nonneg; [apply magnitude_nonneg|exact Hh].
Qed.

Lemma triple_after_keeps {S A B} (I : S -> Prop) (m : M S A)
    (k : A -> M S B) (Q : B -> S -> Prop) :
  keeps I m -> (forall a, triple I (k a) Q I) -> triple I (bind m k) Q I.
Proof. intros Hm Hk. now apply triple_bind with (Q := fun _ => I). Qed.

Lemma triple_assume {S A} (P0 : Prop) (I : S -> Prop) (m : M S A)
    (Q : A -> S -> Prop) (E : S -> Prop) :
  (P0 -> triple I m Q E) -> triple (fun s => P0 /\ I s) m Q E.
Proof. intros H s [H0 Hs]. exact (H H0 s Hs). Qed.

Lemma keeps_write_eeg_response (x : list R) :
  keeps response_nonneg (write_eeg x).
Proof.
  apply keeps_modify. intros s Hs. destruct (loaded s); exact Hs.
Qed.

Lemma keeps_write_eeg_True (x : list R) :
  keeps (fun _ : NoiseWall R => True) (write_eeg x).
Proof. apply keeps_modify. trivial. Qed.

Lemma keeps_read_eeg_any (I : NoiseWall R -> Prop) : keeps I read_eeg.
Proof. unfold read_eeg. keeps_steps. Qed.

Hint Resolve keeps_read_eeg_any keeps_design : keeps.

Section Stage.
(** An invariant that writing the signal keeps. *)
Context (I : NoiseWall R -> Prop) (HI : forall x, keeps I (write_eeg x)).

Ltac stage_steps :=
  lazymatch goal with
  | |- triple _ (calcFrequencyResponse _ _ _ _) _ _ =>
      apply calcFrequencyResponse_nonneg
  | |- triple _ (bind _ _) _ _ =>
      apply triple_after_keeps;
      [solve [eauto with keeps]|intros; stage_steps]
  end.

Lemma stageA_nonneg :
  triple I (stageA lib) (fun fresp s => nonneg fresp /\ I s) I.
Proof. unfold stageA. stage_steps. constructor. Qed.

Lemma stageB_nonneg (h : list R) :
  nonneg h ->
  triple I (stageB lib h) (fun fresp s => nonneg fresp /\ I s) I.
Proof. intros Hh. unfold stageB. stage_steps. exact Hh. Qed.

Lemma stageC_nonneg (h : list R) :
  nonneg h ->
  triple I (stageC lib h) (fun fresp s => nonneg fresp /\ I s) I.
Proof. intros Hh. unfold stageC. stage_steps. exact Hh. Qed.

Lemma stageD_nonneg (h : list R) :
  nonneg h ->
  triple I (stageD lib h) (fun fresp s => nonneg fresp /\ I s) I.
Proof. intros Hh. unfold stageD. stage_steps. exact Hh. Qed.

Lemma stagesAD_nonneg :
  triple I (stagesAD lib) (fun fresp s => nonneg fresp /\ I s) I.
Proof.
  unfold stagesAD.
  eapply triple_bind; [apply stageA_nonneg|].
  intros h1. apply triple_assume. intros H1.
  eapply triple_bind; [now apply stageB_nonneg|].
  intros h2. apply triple_assume. intros H2.
  eapply triple_bind; [now apply stageC_nonneg|].
  intros h3. apply triple_assume. intros H3.
  now apply stageD_nonneg.
Qed.
End Stage.

Hint Resolve keeps_write_eeg_response : keeps.

Lemma assign_response_nonneg (h : list R) :
  triple (fun s => nonneg h /\ response_nonneg s)
    (modify (set_eegFilterFrequencyResponse h))
    (fun _ => response_nonneg) response_nonneg.
Proof. intros s [Hh _]. exact Hh. Qed.

Lemma firLoop_nonneg (n : nat) :
  forall h, nonneg h -> keeps response_nonneg (firLoop lib n h).
Proof.
  induction n as [|n IH]; intros h Hh; cbn [firLoop]; [apply keeps_ret|].
  apply keeps_bind; [auto with keeps|intros x].
  apply keeps_bind; [auto with keeps|intros _].
  apply triple_bind
    with (Q := fun fresp s => nonneg fresp /\ response_nonneg s).
  - now apply calcFrequencyResponse_nonneg.
  - intros h'. apply triple_assume. intros Hh' s Hs.
    unfold bind, modify. apply (IH h' Hh'). exact Hh'.
Qed.

Lemma stageE_nonneg (band_low band_high : R) (h : list R) :
  nonneg h -> keeps response_nonneg (stageE lib band_low band_high h).
Proof.
  intros Hh. unfold stageE. apply keeps_bind.
  - apply keeps_if; [|apply keeps_ret].
    apply keeps_bind; [auto with keeps|intros r].
    apply keeps_bind; [auto with keeps|intros bp].
    apply keeps_bind; [auto with keeps|intros x].
    apply keeps_bind; [auto with keeps|intros _].
    apply triple_bind
      with (Q := fun fresp s => nonneg fresp /\ response_nonneg s).
    + now apply calcFrequencyResponse_nonneg.
    + intros h'. apply assign_response_nonneg.
  - intros _. apply keeps_if; [|apply keeps_ret].
    apply keeps_bind; [auto with keeps|intros n].
    now apply firLoop_nonneg.
Qed.

Lemma filterData_nonneg (band_low band_high : R) :
  keeps response_nonneg (filterData lib band_low band_high).
Proof.
  unfold filterData.
  eapply triple_bind; [apply stagesAD_nonneg, keeps_write_eeg_response|].
  intros h. apply triple_assume. intros Hh. now apply stageE_nonneg.
Qed.
End Nonneg.

(** C9: for every library, object and band, the accumulated response is
    non-negative at every frequency after every stage. Each call of
    [calcFrequencyResponse] on a non-negative accumulator returns a
    non-negative one; so do stages A, B, C, D and their sequence; and the
    transfer function [filterData] may assign (band-pass branch, or each
    pass of the FIR loop) is non-negative, a non-negative or unset one
    staying so when nothing is assigned. *)
Theorem frequency_response_nonneg (lib : SciLib R) :
  (forall b a h_in s fresp s',
     nonneg h_in ->
     calcFrequencyResponse lib b a h_in s = (inr fresp, s') ->
     nonneg fresp) /\
  (forall s fresp s', stageA lib s = (inr fresp, s') -> nonneg fresp) /\
  (forall h s fresp s',
     nonneg h -> stageB lib h s = (inr fresp, s') -> nonneg fresp) /\
  (forall h s fresp s',
     nonneg h -> stageC lib h s = (inr fresp, s') -> nonneg fresp) /\
  (forall h s fresp s',
     nonneg h -> stageD lib h s = (inr fresp, s') -> nonneg fresp) /\
  (forall s fresp s', stagesAD lib s = (inr fresp, s') -> nonneg fresp) /\
  (forall n h s,
     nonneg h -> response_nonneg s ->
     response_nonneg (snd (firLoop lib n h s))) /\
  (forall band_low band_high s,
     response_nonneg s ->
     response_nonneg (snd (filterData lib band_low band_high s))).
Proof.
  pose (T := fun _ : NoiseWall R => True).
  assert (forall (m : M (NoiseWall R) (list R)) s fresp s',
            triple T m (fun fresp s => nonneg fresp /\ T s) T ->
            m s = (inr fresp, s') -> nonneg fresp) as Hret.
  { intros m s fresp s' Hm Hrun. specialize (Hm s I).
    rewrite Hrun in Hm. exact (proj1 Hm). }
  repeat split.
  - intros b a h_in s fresp s' Hh Hrun.
    exact (Hret _ _ _ _ (@calcFrequencyResponse_nonneg lib T b a h_in Hh)
             Hrun).
  - intros s fresp s' Hrun.
    exact (Hret _ _ _ _ (@stageA_nonneg lib T keeps_write_eeg_True) Hrun).
  - intros h s fresp s' Hh Hrun.
    exact (Hret _ _ _ _ (@stageB_nonneg lib T keeps_write_eeg_True h Hh)
             Hrun).
  - intros h s fresp s' Hh Hrun.
    exact (Hret _ _ _ _ (@stageC_nonneg lib T keeps_write_eeg_True h Hh)
             Hrun).
  - intros h s fresp s' Hh Hrun.
    exact (Hret _ _ _ _ (@stageD_nonneg lib T keeps_write_eeg_True h Hh)
             Hrun).
  - intros s fresp s' Hrun.
    exact (Hret _ _ _ _ (@stagesAD_nonneg lib T keeps_write_eeg_True) Hrun).
  - intros n h s Hh Hs.
    pose proof (@firLoop_nonneg lib n h Hh s Hs) as K.
    now destruct (firLoop lib n h s) as [[e|u] s'].
  - intros bl bh s Hs.
    pose proof (@filterData_nonneg lib bl bh s Hs) as K.
    now destruct (filterData lib bl bh s) as [[e|u] s'].
Qed.

Lemma frequency_response_nonneg_witness :
  let L := Demo.lib (Demo.const 0%R) (Demo.const 0%R) in
  nonneg (magnitude L [1 / 2]%R [1%R] 500) /\
  nonneg (zipWith fmul (magnitude L [1 / 2]%R [1%R] 500)
            (magnitude L [1%R] [1%R] 500)) /\
  response_nonneg (snd (filterData L (-2)%R 0%R Demo.valid)) /\
  response_nonneg (snd (filterData L 8%R 12%R Demo.valid)).
Proof.
  intros L.
  destruct (frequency_response_nonneg L)
    as (Hcalc & _ & _ & _ & _ & _ & _ & Hfilter).
  assert (nonneg (magnitude L [1%R] [1%R] 500)) as H1.
  { apply (Hcalc [1%R] [1%R] [] Demo.valid _ Demo.valid);
      [constructor|reflexivity]. }
  split; [|split; [|split]].
  - apply (Hcalc [1 / 2]%R [1%R] [] Demo.valid _ Demo.valid);
      [constructor|reflexivity].
  - apply (Hcalc [1 / 2]%R [1%R] (magnitude L [1%R] [1%R] 500) Demo.valid
             _ Demo.valid); [exact H1|reflexivity].
  - apply Hfilter. exact I.
  - apply Hfilter. exact I.
Defined.

(** ** The reference EEG variance *)

Lemma In_arange (lo hi f : Z) : In f (arange lo hi) -> (lo <= f < hi)%Z.
Proof.
  unfold arange. rewrite in_map_iff. intros (k & <- & Hk).
  apply in_seq in Hk. lia.
Qed.

Section Reference.
Context (lib : SciLib R) (h : list R) (resp : Z -> R).
Open Scope R_scope.

Lemma loop_sum_integral (y : Z -> R) (freqs : list Z) (acc : R) :
  loop_sum lib resp y freqs acc = acc + band_integral lib y resp freqs.
Proof.
  unfold loop_sum.
  revert acc. induction freqs as [|f freqs IH]; intros acc;
    cbn [fold_left band_integral fold_right].
  - cbn. lra.
  - rewrite IH. unfold band_integral. cbn [fadd fmul real_ops]. ring.
Qed.

Lemma bandpower_loop_run (psd : R -> option R) (y : Z -> R)
    (freqs : list Z) (acc : R) (t : NoiseWall R) :
  eegFilterFrequencyResponse t = Some h ->
  (forall f, In f freqs -> psd (IZR f) = Some (y f)) ->
  (forall f, In f freqs -> py_index h f = inr (resp f)) ->
  bandpower_loop lib psd freqs acc t = (inr (loop_sum lib resp y freqs acc), t).
Proof.
  intros Hh. revert acc.
  induction freqs as [|f freqs IH]; intros acc Hpsd Hidx; [reflexivity|].
  cbn [bandpower_loop loop_sum fold_left].
  unfold bind at 1. cbn [of_Z real_ops]. rewrite (Hpsd f) by now left.
  cbn [lift_opt]. unfold ret at 1.
  unfold bind at 1. unfold getattr at 1. rewrite Hh.
  unfold bind at 1. rewrite (Hidx f) by now left.
  cbn [lift_sum]. unfold ret at 1.
  apply IH; intros g Hg; [apply Hpsd|apply Hidx]; now right.
Qed.

Lemma readParalysed_run (fn : string) (y : Z -> R) (t : NoiseWall R) :
  response_ok h resp t -> table_ok lib t fn y ->
  readParalysedEEGVarianceFromWhithamEtAl lib fn t =
    (inr (band_integral lib y resp
            (arange (f_signal_min t) (f_signal_max t))), t).
Proof.
  intros (Hh & Hidx) (a & psd & Ha & Hpsd & Hy).
  unfold readParalysedEEGVarianceFromWhithamEtAl.
  unfold bind at 1. rewrite Ha. cbn [lift_opt]. unfold ret at 1.
  unfold bind at 1. rewrite Hpsd. cbn [lift_opt]. unfold ret at 1.
  unfold bind at 1. unfold gets at 1. unfold bind at 1. unfold gets at 1.
  rewrite (@bandpower_loop_run psd y _ _ t Hh).
  - rewrite loop_sum_integral. cbn [of_Z real_ops]. now rewrite Rplus_0_l.
  - intros f Hf. apply Hy. now apply In_arange.
  - intros f Hf. apply Hidx. now apply In_arange.
Qed.

Lemma addParalysed_run (fn : string) (y : Z -> R) (t : NoiseWall R)
    (v : R) :
  pureEEGVar t = Some v -> response_ok h resp t -> table_ok lib t fn y ->
  addParalysedEEGVariance lib fn t =
    (inr tt,
     set_pureEEGVar
       (v + band_integral lib y resp
              (arange (f_signal_min t) (f_signal_max t))) t).
Proof.
  intros Hv Hr Ht. unfold addParalysedEEGVariance.
  unfold bind at 1. unfold getattr at 1. rewrite Hv.
  unfold bind at 1. rewrite (readParalysed_run Hr Ht). reflexivity.
Qed.

(** The run of [calculateParalysedEEGVariance], with the six integrals
    added in the order of the source. *)
Lemma calculateParalysedEEGVariance_run (s : NoiseWall R)
    (y : string -> Z -> R) :
  response_ok h resp s ->
  (forall fn, In fn whitham_tables -> table_ok lib s fn (y fn)) ->
  let band := arange (f_signal_min s) (f_signal_max s) in
  calculateParalysedEEGVariance lib s =
    (inr tt,
     set_pureEEGVar
       ((0 + band_integral lib (y "sub1a.dat"%string) resp band
           + band_integral lib (y "sub1b.dat"%string) resp band
           + band_integral lib (y "sub1c.dat"%string) resp band
           + band_integral lib (y "sub2a.dat"%string) resp band
           + band_integral lib (y "sub2b.dat"%string) resp band
           + band_integral lib (y "sub2c.dat"%string) resp band) / 6) s).
Proof.
  intros Hr Ht band. unfold calculateParalysedEEGVariance.
  unfold bind at 1. unfold modify at 1. cbn [of_Z real_ops].
  assert (forall fn v, In fn whitham_tables ->
            addParalysedEEGVariance lib fn (set_pureEEGVar v s) =
            (inr tt,
             set_pureEEGVar (v + band_integral lib (y fn) resp band) s))
    as Hstep.
  { intros fn v Hfn.
    rewrite (@addParalysed_run fn (y fn) (set_pureEEGVar v s) v eq_refl).
    - reflexivity.
    - exact Hr.
    - exact (Ht fn Hfn). }
  unfold whitham_tables in Hstep.
  do 6 (unfold bind at 1; rewrite Hstep by (cbn [In]; tauto)).
  reflexivity.
Qed.
End Reference.

(** C4, as the code has it: when the six tables can be read and
    interpolated and the transfer function indexed over the band,
    [calculateParalysedEEGVariance] returns and stores the average over
    the six tables of the per-table integral, each the sum over the
    integer frequencies f from f_signal_min up to f_signal_max - 1
    (f_signal_max excluded) of 10 to the interpolated log-power at f times
    the square of the accumulated filter response at f. *)
Theorem calculateParalysedEEGVariance_spec (lib : SciLib R)
    (s : NoiseWall R) (h : list R) (resp : Z -> R) (y : string -> Z -> R) :
  response_ok h resp s ->
  (forall fn, In fn whitham_tables -> table_ok lib s fn (y fn)) ->
  calculateParalysedEEGVariance lib s =
    (inr tt,
     set_pureEEGVar
       (reference_variance lib y resp
          (band_half_open (f_signal_min s) (f_signal_max s))) s).
Proof.
  intros Hr Ht.
  rewrite (@calculateParalysedEEGVariance_run lib h resp s y Hr Ht).
  cbv zeta. f_equal. f_equal.
  unfold reference_variance, band_half_open, whitham_tables.
  cbn [fold_right fadd fdiv of_Z real_ops]. lra.
Qed.

Lemma banded_response_ok :
  response_ok [1; 1; 1; 1]%R (fun _ => 1%R) Demo.banded.
Proof.
  split; [reflexivity|]. cbn [f_signal_min f_signal_max Demo.banded set_f_signal].
  intros f Hf. assert (f = 1 \/ f = 2)%Z as [-> | ->] by lia; reflexivity.
Qed.

Lemma flat_table_ok (var median : list R -> R) (fn : string) :
  table_ok (Demo.lib var median) Demo.banded fn (fun _ => 0%R).
Proof.
  exists Demo.flat_table, Demo.flat_psd.
  split; [reflexivity|]. split; [reflexivity|].
  cbn [f_signal_min f_signal_max Demo.banded set_f_signal].
  intros f Hf. unfold Demo.flat_psd.
  assert (Rleb 0 (IZR f) = true) as ->
    by (apply Rleb_true, IZR_le; lia).
  assert (Rleb (IZR f) 100 = true) as ->
    by (apply Rleb_true, IZR_le; lia).
  reflexivity.
Qed.

Lemma flat_integral (var median : list R -> R) (freqs : list Z) :
  band_integral (Demo.lib var median) (fun _ => 0%R) (fun _ => 1%R) freqs =
  INR (length freqs).
Proof.
  unfold band_integral.
  induction freqs as [|f freqs IH]; [reflexivity|].
  cbn [fold_right]. rewrite IH.
  cbn [pow10 Demo.lib fadd fmul real_ops length].
  rewrite Rpower_O by lra. rewrite S_INR. ring.
Qed.

Lemma calculateParalysedEEGVariance_spec_witness :
  let L := Demo.lib (Demo.const 0%R) (Demo.const 0%R) in
  calculateParalysedEEGVariance L Demo.banded =
    (inr tt,
     set_pureEEGVar
       (reference_variance L (fun _ _ => 0%R) (fun _ => 1%R)
          (band_half_open 1 3)) Demo.banded).
Proof.
  intros L.
  apply (@calculateParalysedEEGVariance_spec L Demo.banded [1; 1; 1; 1]%R
           (fun _ => 1%R) (fun _ _ => 0%R) banded_response_ok).
  intros fn _. apply flat_table_ok.
Defined.

(** C4, as stated, fails: with the signal band 1..3, four unit samples of
    response and tables of constant log-power 0, the code stores 2 (the
    frequencies 1 and 2), where the sum with f_signal_max included is 3;
    the response has a sample at 3 Hz, which the loop never reads. *)
Lemma reference_variance_excludes_f_signal_max :
  let L := Demo.lib (Demo.const 0%R) (Demo.const 0%R) in
  f_signal_min Demo.banded = 1%Z /\ f_signal_max Demo.banded = 3%Z /\
  py_index [1; 1; 1; 1]%R 3 = inr 1%R /\
  calculateParalysedEEGVariance L Demo.banded =
    (inr tt, set_pureEEGVar 2%R Demo.banded) /\
  reference_variance L (fun _ _ => 0%R) (fun _ => 1%R) (band_inclusive 1 3)
    = 3%R.
Proof.
  intros L. split; [reflexivity|]. split; [reflexivity|].
  split; [reflexivity|]. split.
  - rewrite (@calculateParalysedEEGVariance_run L [1; 1; 1; 1]%R
               (fun _ => 1%R) Demo.banded (fun _ _ => 0%R)
               banded_response_ok)
      by (intros fn _; apply flat_table_ok).
    cbv zeta. f_equal. f_equal. unfold L. rewrite !flat_integral.
    change (length (arange (f_signal_min Demo.banded)
                      (f_signal_max Demo.banded))) with 2%nat.
    cbn [INR]. lra.
  - unfold reference_variance, whitham_tables, band_inclusive.
    cbn [fold_right]. unfold L. rewrite !flat_integral.
    change (length (arange 1 (3 + 1))) with 3%nat.
    cbn [INR fadd fdiv of_Z real_ops]. lra.
Qed.

(** ** The same control flow in binary64 *)

Section Binary64.
Import PrimFloat.
Context (lib : SciLib float).

(** The literal [50E-6] is the double nearest to 5e-5. *)
Example lit_50E_6_binary64 :
  (@lit_50E_6 float binary64_ops = 0x1.a36e2eb1c432dp-15)%float.
Proof. reflexivity. Qed.

(** The default call [filterData()] assigns no transfer function. *)
Example filterData_default_binary64 (s : NoiseWall float) :
  eegFilterFrequencyResponse (snd (filterData lib (of_Z 0) (of_Z 0) s)) =
  eegFilterFrequencyResponse s.
Proof. apply filterData_fallback_frame; reflexivity. Qed.

(** A nan rho passes the guard and the logarithm: no exception, and the
    wall stored is the nan [math.log10] hands back. *)
Example calcNoiseWall_nan_binary64 (s : NoiseWall float) :
  rho s = Some nan ->
  calcNoiseWall lib s = (inr tt, set_SNRwall (of_Z 10 *. nan) s).
Proof. intros H. unfold calcNoiseWall; run. rewrite H. reflexivity. Qed.

(** [int()] truncates toward zero and refuses nan and infinities. *)
Example float_trunc_examples :
  float_trunc (-2.5)%float = inr (-2)%Z /\
  float_trunc (2.75)%float = inr 2%Z /\
  float_trunc infinity = inl OverflowError /\
  float_trunc nan = inl (ValueError "cannot convert float NaN to integer").
Proof. repeat split; reflexivity. Qed.
End Binary64.

(** * Further properties of the calculations *)

(** ** The maximum noise variance *)

Lemma maxVarLoop_run (lib : SciLib R) (s : NoiseWall R) (r : Recording R)
    (rows : list (R * R)) (acc : list R) :
  loaded s = Some r ->
  maxVarLoop lib rows acc s =
    (inr (acc ++
          map (fun row =>
                 np_var lib
                   (map (fun y => (y / noiseReduction s)%R)
                      (py_slice (eeg r)
                         (Rtrunc (IZR (fs r) * fst row))
                         (Rtrunc (IZR (fs r) * snd row)))))
              rows), s).
Proof.
  intros H. revert acc.
  induction rows as [|[tb te] rows IH]; intros acc.
  - cbn [maxVarLoop map]. now rewrite app_nil_r.
  - cbn [maxVarLoop map fst snd].
    unfold bind at 1. unfold getattr at 1. rewrite H.
    unfold bind at 1. cbn [ftrunc real_ops lift_sum]. unfold ret at 1.
    unfold bind at 1. unfold ret at 1.
    unfold bind at 1. unfold gets at 1.
    rewrite IH. now rewrite <- app_assoc.
Qed.



(** ** When the wall cannot be computed *)

Lemma sqrt_lt_one (x : R) : (0 <= x)%R -> (sqrt x < 1 <-> x < 1)%R.
Proof.
  intros Hx. rewrite <- sqrt_1 at 1. split; intros H.
  - apply sqrt_lt_0_alt in H. exact H.
  - apply sqrt_lt_1_alt. lra.
Qed.

Lemma ratio_lt_one (vmin vmax : R) :
  (0 < vmin)%R -> (vmax / vmin < 1 <-> vmax < vmin)%R.
Proof.
  intros Hmin. split; intros H.
  - apply (Rmult_lt_compat_r vmin) in H; [|exact Hmin].
    replace (vmax / vmin * vmin)%R with vmax in H by (field; lra). lra.
  - apply (Rmult_lt_reg_r vmin); [exact Hmin|].
    replace (vmax / vmin * vmin)%R with vmax by (field; lra). lra.
Qed.

(** X2: with noiseVarMin > 0 and noiseVarMax >= 0, [calcRho] followed by
    [calcNoiseWall] raises MIN_VAR_LARGER_THAN_MAX_VAR exactly when
    noiseVarMax < noiseVarMin, and returns exactly when
    noiseVarMax > noiseVarMin. *)
Theorem wall_exception_iff_min_exceeds_max (lib : SciLib R)
    (s : NoiseWall R) (vmin vmax : R) :
  noiseVarMin s = Some vmin -> noiseVarMax s = Some vmax ->
  (0 < vmin)%R -> (0 <= vmax)%R ->
  let out := (calcRho ;;; calcNoiseWall lib) s in
  (fst out = inl (NoiseWallException MIN_VAR_LARGER_THAN_MAX_VAR) <->
   (vmax < vmin)%R) /\
  (fst out = inr tt <-> (vmin < vmax)%R).
Proof.
  intros Hmin Hmax Hpos Hnn out.
  assert (0 <= vmax / vmin)%R as Hq
    by (apply Rmult_le_pos; [lra|left; now apply Rinv_0_lt_compat]).
  pose proof (sqrt_lt_one Hq) as Hlt.
  pose proof (ratio_lt_one vmax Hpos) as Hr.
  unfold out, bind. rewrite (calcRho_run s Hmin Hmax).
  set (r := sqrt (vmax / vmin)) in Hlt |- *; set (s1 := set_rho r s).
  destruct (Rtotal_order r 1) as [Hc | [Hc | Hc]].
  - rewrite (@calcNoiseWall_below lib s1 r eq_refl Hc). cbn [fst].
    split; split; intros; try reflexivity; try discriminate; lra.
  - assert (vmax = vmin) as Heq.
    { assert (vmax / vmin = 1)%R as H1.
      { rewrite <- (sqrt_sqrt (vmax / vmin)) by exact Hq. fold r.
        rewrite Hc. ring. }
      apply (Rmult_eq_compat_r vmin) in H1.
      replace (vmax / vmin * vmin)%R with vmax in H1 by (field; lra). lra. }
    assert (s1 = set_rho 1%R s) as -> by (unfold s1; now rewrite Hc).
    rewrite (@calcNoiseWall_one lib (set_rho 1%R s) eq_refl). cbn [fst].
    split; split; intros; try discriminate; lra.
  - assert (~ (vmax < vmin)%R) as Hn by (intros Hv; apply Hr in Hv; lra).
    assert (vmax <> vmin) as Hne.
    { intros ->. unfold r in Hc.
      replace (vmin / vmin)%R with 1%R in Hc by (field; lra).
      rewrite sqrt_1 in Hc. lra. }
    rewrite (@calcNoiseWall_above lib s1 r eq_refl Hc). cbn [fst].
    split; split; intros; try reflexivity; try discriminate; lra.
Qed.

Lemma wall_exception_iff_min_exceeds_max_witness :
  fst ((calcRho ;;; calcNoiseWall (Demo.lib (Demo.const 0%R) (Demo.const 0%R)))
         (Demo.measured 4 1)) =
    inl (NoiseWallException MIN_VAR_LARGER_THAN_MAX_VAR) /\
  fst ((calcRho ;;; calcNoiseWall (Demo.lib (Demo.const 0%R) (Demo.const 0%R)))
         (Demo.measured 1 4)) = inr tt.
Proof.
  split.
  - apply (@wall_exception_iff_min_exceeds_max
             (Demo.lib (Demo.const 0%R) (Demo.const 0%R))
             (Demo.measured 4 1) 4%R 1%R eq_refl eq_refl); lra.
  - apply (@wall_exception_iff_min_exceeds_max
             (Demo.lib (Demo.const 0%R) (Demo.const 0%R))
             (Demo.measured 1 4) 1%R 4%R eq_refl eq_refl); lra.
Defined.

(** ** What a returning [doAllCalcs] guarantees *)

Section Returns.
Context {F : Type} {ops : FloatOps F} (lib : SciLib F).

Lemma keeps_bandpower_loop (I : NoiseWall F -> Prop) (psd : F -> option F)
    (freqs : list Z) :
  forall acc, keeps I (bandpower_loop lib psd freqs acc).
Proof.
  induction freqs as [|f freqs IH]; intros acc; cbn [bandpower_loop];
    [apply keeps_ret|].
  apply keeps_bind; [auto with keeps|intros y].
  apply keeps_bind; [auto with keeps|intros h].
  apply keeps_bind; [auto with keeps|intros hf]. apply IH.
Qed.

Lemma keeps_readParalysed (I : NoiseWall F -> Prop) (fn : string) :
  keeps I (readParalysedEEGVarianceFromWhithamEtAl lib fn).
Proof.
  unfold readParalysedEEGVarianceFromWhithamEtAl.
  apply keeps_bind; [auto with keeps|intros a].
  apply keeps_bind; [auto with keeps|intros psd].
  apply keeps_bind; [auto with keeps|intros lo].
  apply keeps_bind; [auto with keeps|intros hi].
  apply keeps_bandpower_loop.
Qed.

(** [calculateParalysedEEGVariance] writes [pureEEGVar] and nothing else,
    whether it returns or raises. *)
Lemma calculateParalysedEEGVariance_frame (s : NoiseWall F) :
  exists p, snd (calculateParalysedEEGVariance lib s) = set_pureEEGVar p s.
Proof.
  pose (I := fun t : NoiseWall F => exists p, t = set_pureEEGVar p s).
  assert (forall v, forall t, I t -> I (set_pureEEGVar v t)) as Hset.
  { intros v t [p ->]. exists v. reflexivity. }
  assert (forall fn, keeps I (addParalysedEEGVariance lib fn)) as Hadd.
  { intros fn. unfold addParalysedEEGVariance.
    apply keeps_bind; [auto with keeps|intros v].
    apply keeps_bind; [apply keeps_readParalysed|intros b].
    apply keeps_modify. apply Hset. }
  assert (keeps I (v <- getattr "pureEEGVar" (@pureEEGVar F) ;;
                   modify (set_pureEEGVar (v /. of_Z 6)))) as Hlast.
  { apply keeps_bind; [auto with keeps|intros v].
    apply keeps_modify. apply Hset. }
  unfold calculateParalysedEEGVariance. unfold bind at 1. unfold modify at 1.
  assert (I (set_pureEEGVar (of_Z 0) s)) as H0 by (eexists; reflexivity).
  revert H0. generalize (set_pureEEGVar (of_Z 0) s). intros t Ht.
  assert (keeps I
    (addParalysedEEGVariance lib "sub1a.dat";;;
     addParalysedEEGVariance lib "sub1b.dat";;;
     addParalysedEEGVariance lib "sub1c.dat";;;
     addParalysedEEGVariance lib "sub2a.dat";;;
     addParalysedEEGVariance lib "sub2b.dat";;;
     addParalysedEEGVariance lib "sub2c.dat";;; 
     v <- getattr "pureEEGVar" (@pureEEGVar F) ;;
     modify (set_pureEEGVar (v /. of_Z 6)))) as K.
  { repeat (apply keeps_bind; [apply Hadd|intros _]). exact Hlast. }
  specialize (K t Ht).
  match goal with |- exists p, snd ?m = _ => destruct m as [[e|u] t'] end;
    exact K.
Qed.

(** The run of [calcSNR] once its three inputs are assigned. *)
Lemma calcSNR_run (s : NoiseWall F) (vmin r p : F) :
  noiseVarMin s = Some vmin -> rho s = Some r -> pureEEGVar s = Some p ->
  let c := consciousEEGgain s *. consciousEEGgain s *. p in
  calcSNR lib s =
    match math_log10 lib (c /. noiseVariance vmin r) with
    | inr v => (inr tt, set_SNR (of_Z 10 *. v) (set_consciousEEGvar c s))
    | inl e => (inl e, set_consciousEEGvar c s)
    end.
Proof.
  intros Hmin Hr Hp c. unfold calcSNR.
  unfold bind at 1. unfold getattr at 1. rewrite Hmin.
  unfold bind at 1. unfold getattr at 1. rewrite Hr.
  unfold bind at 1. unfold gets at 1.
  unfold bind at 1. unfold getattr at 1. rewrite Hp.
  unfold bind at 1. unfold modify at 1.
  unfold bind at 1. unfold getattr at 1.
  cbn [consciousEEGvar set_consciousEEGvar]. fold c.
  unfold bind at 1.
  destruct (math_log10 lib (c /. noiseVariance vmin r)); reflexivity.
Qed.
End Returns.

Section ReturnsReal.
Context (lib : SciLib R).
Open Scope R_scope.

Lemma calcNoiseVarMin_run (s : NoiseWall R) (chunk : list R) :
  getMinNoiseVarEEGChunk s = (inr chunk, s) ->
  let v := np_var lib (map (fun y => y / noiseReduction s) chunk) in
  calcNoiseVarMin lib s =
    (if Rltb v 0 then inl (NoiseWallException MIN_VAR_NEG)
     else if Rltb (@lit_50E_6 R real_ops) (sqrt v)
          then inl (NoiseWallException MIN_VAR_UNUSUALLY_HIGH)
          else inr tt,
     set_noiseVarMin v s).
Proof.
  intros Hrun v. unfold calcNoiseVarMin.
  generalize (@lit_50E_6 R real_ops). intros lim.
  unfold bind at 1. rewrite Hrun. run. fold v.
  destruct (Rltb v 0); [reflexivity|].
  destruct (Rltb lim (sqrt v)); reflexivity.
Qed.

Lemma calcNoiseVarMin_returns (s s1 : NoiseWall R) :
  calcNoiseVarMin lib s = (inr tt, s1) ->
  exists v, s1 = set_noiseVarMin v s /\ 0 <= v /\ sqrt v <= 50e-6.
Proof.
  intros Hret.
  destruct (getMinNoiseVarEEGChunk s) as [[e|chunk] t] eqn:E.
  - unfold calcNoiseVarMin in Hret. unfold bind at 1 in Hret.
    rewrite E in Hret. discriminate.
  - assert (t = s) as ->
      by (rewrite <- (getMinNoiseVarEEGChunk_pure s); now rewrite E).
    rewrite (@calcNoiseVarMin_run s chunk E) in Hret. cbv zeta in Hret.
    set (v := np_var lib _) in Hret. exists v.
    rewrite lit_50E_6_real in Hret.
    destruct (Rltb v 0) eqn:E1; [discriminate|].
    destruct (Rltb 50e-6 (sqrt v)) eqn:E2; [discriminate|].
    apply Rltb_false in E1, E2. injection Hret as <-. auto.
Qed.

Lemma calcNoiseVarMax_run (s : NoiseWall R) (r : Recording R) :
  loaded s = Some r ->
  let m := np_median lib
             (map (window_variance lib r (noiseReduction s)) (artefact r)) in
  calcNoiseVarMax lib s =
    (if Rltb m 0 then inl (NoiseWallException MAX_VAR_NEG) else inr tt,
     set_noiseVarMax m s).
Proof.
  intros H m. unfold calcNoiseVarMax.
  unfold bind at 1. unfold getattr at 1. rewrite H.
  unfold bind at 1. rewrite (@maxVarLoop_run lib s r _ _ H).
  cbn [app]. rewrite map_map. cbn [fst snd].
  unfold bind at 1. unfold modify at 1.
  unfold bind at 1. unfold getattr at 1.
  cbn [noiseVarMax set_noiseVarMax].
  change (np_median lib _) with m.
  cbn [fltb of_Z real_ops]. destruct (Rltb m 0); reflexivity.
Qed.

Lemma calcNoiseVarMax_returns (s s1 : NoiseWall R) :
  calcNoiseVarMax lib s = (inr tt, s1) ->
  exists m, s1 = set_noiseVarMax m s /\ 0 <= m.
Proof.
  intros Hret. destruct (loaded s) as [r|] eqn:E.
  - rewrite (@calcNoiseVarMax_run s r E) in Hret. cbv zeta in Hret.
    set (m := np_median lib _) in Hret. exists m.
    destruct (Rltb m 0) eqn:E1; [discriminate|].
    apply Rltb_false in E1. injection Hret as <-. auto.
  - unfold calcNoiseVarMax in Hret. unfold bind at 1 in Hret.
    unfold getattr at 1 in Hret. rewrite E in Hret. discriminate.
Qed.

Lemma calcNoiseWall_returns (s s1 : NoiseWall R) (r : R) :
  rho s = Some r -> calcNoiseWall lib s = (inr tt, s1) ->
  1 < r /\ s1 = set_SNRwall (10 * log10 lib (r - 1 / r)) s.
Proof.
  intros Hr Hret. destruct (Rtotal_order r 1) as [Hc | [Hc | Hc]].
  - rewrite (@calcNoiseWall_below lib s r Hr Hc) in Hret. discriminate.
  - subst r. rewrite (@calcNoiseWall_one lib s Hr) in Hret. discriminate.
  - rewrite (@calcNoiseWall_above lib s r Hr Hc) in Hret.
    injection Hret as <-. auto.
Qed.

Lemma math_log10_returns (x v : R) :
  math_log10 lib x = inr v -> 0 < x /\ v = log10 lib x.
Proof.
  unfold math_log10. cbn [fltb fleb of_Z real_ops].
  destruct (Rltb 0 x) eqn:E.
  - apply Rltb_true in E. intros [= <-]. auto.
  - apply Rltb_false in E.
    replace (Rleb x 0) with true by (symmetry; now apply Rleb_true).
    discriminate.
Qed.
End ReturnsReal.


Lemma demo_quiet_chunk (s : NoiseWall R) :
  loaded s = Some Demo.recording ->
  getMinNoiseVarEEGChunk s = (inr [250 / 500 * 2; 500 / 500 * 2]%R, s).
Proof.
  intros H. unfold getMinNoiseVarEEGChunk.
  unfold bind at 1. unfold getattr at 1. rewrite H.
  cbn [zero_data zero_video relaxed fs eeg Demo.recording loadDataFromFile
       Demo.dataset zero_time_data_dat zero_time_video_dat dataok_dat
       emgeeg_dat map fst snd].
  run. change (Pos.to_nat 1) with 1%nat; run.
  replace (1000 * (0 + (0 - 0)))%R with (IZR 0) by lra.
  replace (1000 * (2 / 1000 + (0 - 0)))%R with (IZR 2) by lra.
  rewrite !Rtrunc_IZR. reflexivity.
Qed.

Lemma demo_reference (var median : list R -> R) :
  calculateParalysedEEGVariance (Demo.lib var median) Demo.banded =
    (inr tt, set_pureEEGVar 2%R Demo.banded).
Proof.
  rewrite (@calculateParalysedEEGVariance_run (Demo.lib var median)
             [1; 1; 1; 1]%R (fun _ => 1%R) Demo.banded (fun _ _ => 0%R)
             banded_response_ok)
    by (intros fn _; apply flat_table_ok).
  cbv zeta. f_equal. f_equal. rewrite !flat_integral.
  change (length (arange (f_signal_min Demo.banded)
                    (f_signal_max Demo.banded))) with 2%nat.
  cbn [INR]. lra.
Qed.

Lemma sqrt_1e_12 : sqrt 1e-12 = 1e-6%R.
Proof.
  replace 1e-12%R with (1e-6 * 1e-6)%R by lra. apply sqrt_square. lra.
Qed.

Lemma sqrt_100 : sqrt (1e-10 / 1e-12) = 10%R.
Proof.
  replace (1e-10 / 1e-12)%R with (10 * 10)%R by lra. apply sqrt_square. lra.
Qed.

Lemma demo_run :
  exists s',
    doAllCalcs (Demo.lib (Demo.const 1e-12%R) (Demo.const 1e-10%R)) 1 3
      Demo.banded = (inr tt, s').
Proof.
  set (L := Demo.lib (Demo.const 1e-12%R) (Demo.const 1e-10%R)).
  unfold doAllCalcs.
  unfold bind at 1. unfold modify at 1.
  change (set_f_signal 1 3 Demo.banded) with Demo.banded.
  unfold bind at 1. unfold gets at 1.
  change (dataok Demo.banded) with true. cbn [negb].
  unfold bind at 1. unfold L at 1. rewrite demo_reference. fold L.
  set (s1 := set_pureEEGVar 2%R Demo.banded).
  unfold bind at 1.
  rewrite (@calcNoiseVarMin_run L s1 _ (@demo_quiet_chunk s1 eq_refl)).
  cbv zeta.
  change (np_var L _) with 1e-12%R.
  rewrite lit_50E_6_real, sqrt_1e_12.
  replace (Rltb 1e-12 0) with false by (symmetry; apply Rltb_false; lra).
  replace (Rltb 50e-6 1e-6) with false by (symmetry; apply Rltb_false; lra).
  set (s2 := set_noiseVarMin 1e-12%R s1).
  unfold bind at 1.
  rewrite (@calcNoiseVarMax_run L s2 Demo.recording eq_refl). cbv zeta.
  change (np_median L _) with 1e-10%R.
  replace (Rltb 1e-10 0) with false by (symmetry; apply Rltb_false; lra).
  set (s3 := set_noiseVarMax 1e-10%R s2).
  unfold bind at 1.
  rewrite (@calcRho_run s3 1e-12%R 1e-10%R eq_refl eq_refl).
  rewrite sqrt_100. set (s4 := set_rho 10%R s3).
  unfold bind at 1.
  rewrite (@calcNoiseWall_above L s4 10%R eq_refl) by lra.
  match goal with |- context [set_SNRwall ?w s4] => set (s5 := set_SNRwall w s4) end.
  rewrite (@calcSNR_run R real_ops L s5 1e-12%R 10%R 2%R eq_refl eq_refl eq_refl).
  cbv zeta. unfold math_log10.
  change (consciousEEGgain s5) with 1%R.
  assert ((of_Z 0 <. 1%R *. 1%R *. 2%R /. noiseVariance 1e-12%R 10%R) = true)
    as ->.
  { apply Rltb_true. unfold noiseVariance. cbn [of_Z fmul fdiv real_ops].
    apply Rdiv_lt_0_compat; lra. }
  eexists. reflexivity.
Qed.


(** ** Methods on an object that loaded nothing *)

(** X4: the constructor loads nothing for a marker outside the four
    spellings, and only [doAllCalcs] tests the validity flag: on such an
    object [filterData], [calcNoiseVarMin] and [calcNoiseVarMax] raise the
    [AttributeError] of their first attribute read ([fs], [zero_data],
    [artefact]) and leave the object as it was. *)
Theorem methods_on_unloaded_object {F} {ops : FloatOps F} (lib : SciLib F)
    (d : Dataset F) (band_low band_high : F) :
  marker_ok (all_exp_ok_dat d) = false ->
  let s := init d in
  filterData lib band_low band_high s = (inl (AttributeError "fs"), s) /\
  calcNoiseVarMin lib s = (inl (AttributeError "zero_data"), s) /\
  calcNoiseVarMax lib s = (inl (AttributeError "artefact"), s).
Proof.
  intros H s.
  assert (loaded s = None) as Hl
    by (unfold s; cbn [init loaded]; now rewrite H).
  repeat split.
  - unfold filterData, stagesAD, stageA.
    do 3 (unfold bind at 1). unfold getattr at 1. now rewrite Hl.
  - unfold calcNoiseVarMin, getMinNoiseVarEEGChunk.
    do 2 (unfold bind at 1). unfold getattr at 1. now rewrite Hl.
  - unfold calcNoiseVarMax.
    unfold bind at 1. unfold getattr at 1. now rewrite Hl.
Qed.

Lemma methods_on_unloaded_object_witness :
  let L := Demo.lib (Demo.const 0%R) (Demo.const 0%R) in
  filterData L 8%R 12%R Demo.invalid = (inl (AttributeError "fs"), Demo.invalid)
  /\ calcNoiseVarMin L Demo.invalid =
       (inl (AttributeError "zero_data"), Demo.invalid)
  /\ calcNoiseVarMax L Demo.invalid =
       (inl (AttributeError "artefact"), Demo.invalid).
Proof.
  intros L.
  apply (@methods_on_unloaded_object R real_ops L (Demo.dataset "false")
           8%R 12%R eq_refl).
Defined.

(** ** The band selection *)

Section BandSelection.
Context {F : Type} {ops : FloatOps F} (lib : SciLib F).

Lemma read_write_eeg (s : NoiseWall F) (r : Recording F)
    (f : list F -> list F) {A} (k : M (NoiseWall F) A) :
  loaded s = Some r ->
  (x <- read_eeg ;; write_eeg (f x) ;;; k) s =
  k (set_loaded (set_eeg (f (eeg r)) r) s).
Proof.
  intros H. unfold read_eeg, write_eeg.
  unfold bind at 1. unfold bind at 1. unfold getattr at 1. rewrite H.
  unfold ret at 1. unfold bind at 1. unfold modify at 1. now rewrite H.
Qed.

Lemma firLoop_run (k : nat) :
  forall (h : list F) (s : NoiseWall F) (r : Recording F),
    loaded s = Some r -> length h = worN r ->
    firLoop lib k h s = (inr tt, after_fir lib k h r s).
Proof.
  induction k as [|k IH]; intros h s r H Hlen; [reflexivity|].
  cbn [firLoop]. fold (@fir_b F ops) (@fir_a F ops).
  rewrite (@read_write_eeg s r (lfilter lib fir_b fir_a) _ _ H).
  set (r1 := set_eeg (lfilter lib fir_b fir_a (eeg r)) r).
  set (s1 := set_loaded r1 s).
  unfold bind at 1.
  rewrite (@calcFrequencyResponse_next F ops lib fir_b fir_a h s1 r1 eq_refl
             Hlen).
  set (h1 := zipWith fmul (magnitude lib fir_b fir_a (worN r1)) h).
  unfold bind at 1. unfold modify at 1.
  rewrite (IH h1 (set_eegFilterFrequencyResponse h1 s1) r1 eq_refl)
    by (unfold h1; rewrite zipWith_length;
        [exact Hlen|rewrite magnitude_length; symmetry; exact Hlen]).
  f_equal. destruct k as [|k]; [reflexivity|].
  unfold after_fir. unfold h1, r1.
  rewrite !Nat.iter_succ_r. reflexivity.
Qed.
End BandSelection.

Section BandSelectionReal.
Context (lib : SciLib R) (s : NoiseWall R) (r : Recording R)
        (lp hp n50 n25 : list R * list R).
Hypothesis Hloaded : loaded s = Some r.
Hypothesis Hlp : LP lib r = Some lp.
Hypothesis Hhp : HP lib r = Some hp.
Hypothesis Hn50 : N50 lib r = Some n50.
Hypothesis Hn25 : N25 lib r = Some n25.

(** The recording and the accumulator stage E starts from. *)
#[local] Abbreviation r1 :=
  (set_eeg (cascade_signal lib [lp; n50; hp; n25; n50] (eeg r)) r).
#[local] Abbreviation fresp :=
  (cascade_response lib (worN r) [lp; hp; n25; n50]).

Lemma fresp_length : length fresp = worN r.
Proof.
  unfold cascade_response. cbn [fold_left].
  repeat (rewrite zipWith_length || rewrite magnitude_length); reflexivity.
Qed.

Lemma filterData_stageE (band_low band_high : R) :
  filterData lib band_low band_high s =
  stageE lib band_low band_high fresp (set_loaded r1 s).
Proof.
  unfold filterData. unfold bind at 1.
  now rewrite (@stagesAD_run R real_ops lib s r lp hp n50 n25
                 Hloaded Hlp Hhp Hn50 Hn25).
Qed.

Lemma bandpass_test (band_low band_high : R) :
  (0 < band_low)%R -> (band_low < band_high)%R ->
  ((of_Z 0 <. band_high) && (of_Z 0 <. band_low)
   && (band_low <. band_high)) = true /\
  (band_low <. of_Z 0) = false.
Proof.
  intros H1 H2. cbn [fltb of_Z real_ops]. split.
  - rewrite !andb_true_iff. repeat split; apply Rltb_true; lra.
  - apply Rltb_false. lra.
Qed.

Lemma filterData_bandpass_eq (band_low band_high : R)
    (bp : list R * list R) :
  (0 < band_low)%R -> (band_low < band_high)%R ->
  butter lib 4 [wn band_low r; wn band_high r] bandpass = Some bp ->
  filterData lib band_low band_high s =
    (inr tt,
     set_eegFilterFrequencyResponse
       (cascade_response lib (worN r) [lp; hp; n25; n50; bp])
       (set_loaded
          (set_eeg
             (cascade_signal lib [lp; n50; hp; n25; n50; bp] (eeg r)) r)
          s)).
Proof.
  intros H1 H2 Hbp. rewrite filterData_stageE. unfold stageE.
  destruct (bandpass_test H1 H2) as [-> ->].
  unfold bind at 1. unfold bind at 1. unfold getattr at 1.
  cbn [loaded set_loaded].
  unfold bind at 1. unfold design at 1.
  change (wn band_low r1) with (wn band_low r).
  change (wn band_high r1) with (wn band_high r).
  rewrite Hbp. cbn [lift_opt]. unfold ret at 1.
  rewrite (@read_write_eeg R (set_loaded r1 s) r1
             (lfilter lib (fst bp) (snd bp)) _ _ eq_refl).
  unfold bind at 1.
  match goal with
  | |- context [calcFrequencyResponse lib ?b ?a ?h ?t] =>
      rewrite (@calcFrequencyResponse_next R real_ops lib b a h t
                 (set_eeg (lfilter lib (fst bp) (snd bp) (eeg r1)) r1)
                 eq_refl fresp_length)
  end.
  reflexivity.
Qed.

(** X6: when the band-pass design is rejected (for instance band_high at
    or above fs/2), [filterData] raises the design's [ValueError] with the
    signal already overwritten by the five filters of stages A to D and
    no transfer function assigned. *)
Lemma filterData_bandpass_rejected_run (band_low band_high : R) :
  (0 < band_low)%R -> (band_low < band_high)%R ->
  butter lib 4 [wn band_low r; wn band_high r] bandpass = None ->
  filterData lib band_low band_high s =
    (inl (ValueError "butter"), set_loaded r1 s).
Proof.
  intros H1 H2 Hbp. rewrite filterData_stageE. unfold stageE.
  destruct (bandpass_test H1 H2) as [-> ->].
  unfold bind at 1. unfold bind at 1. unfold getattr at 1.
  cbn [loaded set_loaded].
  unfold bind at 1. unfold design at 1.
  change (wn band_low r1) with (wn band_low r).
  change (wn band_high r1) with (wn band_high r).
  rewrite Hbp. reflexivity.
Qed.

Lemma filterData_fir_run (band_low band_high : R) :
  (band_low < 0)%R ->
  filterData lib band_low band_high s =
    (inr tt,
     after_fir lib (Z.to_nat (- Rtrunc band_low)) fresp r1
       (set_loaded r1 s)).
Proof.
  intros H. rewrite filterData_stageE. unfold stageE.
  assert (((of_Z 0 <. band_high) && (of_Z 0 <. band_low)
           && (band_low <. band_high)) = false) as ->.
  { cbn [fltb of_Z real_ops].
    replace (Rltb 0 band_low) with false
      by (symmetry; apply Rltb_false; lra).
    now rewrite andb_false_r. }
  assert ((band_low <. of_Z 0) = true) as ->
    by (cbn [fltb of_Z real_ops]; now apply Rltb_true).
  unfold bind at 1. unfold ret at 1.
  unfold bind at 1. cbn [ftrunc real_ops lift_sum]. unfold ret at 1.
  apply firLoop_run; [reflexivity|apply fresp_length].
Qed.
End BandSelectionReal.

Lemma Rtrunc_small_negative (x : R) :
  (-1 < x < 0)%R -> Rtrunc x = 0%Z.
Proof.
  intros H. unfold Rtrunc. destruct (Rle_dec 0 x); [lra|].
  rewrite <- (Int_part_spec (- x) 0); [reflexivity|]. cbn. lra.
Qed.

Lemma Rtrunc_below_minus_one (x : R) :
  (x <= -1)%R -> (Rtrunc x <= -1)%Z.
Proof.
  intros H. unfold Rtrunc. destruct (Rle_dec 0 x); [lra|].
  destruct (base_Int_part (- x)) as [_ Hb].
  assert (0 < IZR (Int_part (- x)))%R as Hpos by lra.
  apply lt_IZR in Hpos. lia.
Qed.

(** X5: with 0 < band_low < band_high and a band-pass design that
    succeeds, [filterData] returns; the signal has gone through the five
    filters of stages A to D and then the band-pass, the transfer function
    assigned is the accumulator of stages A to D times the response of the
    band-pass, and the FIR branch is not entered. *)
Theorem filterData_bandpass_run (lib : SciLib R) (s : NoiseWall R)
    (r : Recording R) (lp hp n50 n25 bp : list R * list R)
    (band_low band_high : R) :
  loaded s = Some r ->
  LP lib r = Some lp -> HP lib r = Some hp ->
  N50 lib r = Some n50 -> N25 lib r = Some n25 ->
  (0 < band_low)%R -> (band_low < band_high)%R ->
  butter lib 4 [wn band_low r; wn band_high r] bandpass = Some bp ->
  let out := filterData lib band_low band_high s in
  fst out = inr tt /\
  option_map (@eeg R) (loaded (snd out)) =
    Some (cascade_signal lib [lp; n50; hp; n25; n50; bp] (eeg r)) /\
  eegFilterFrequencyResponse (snd out) =
    Some (cascade_response lib (worN r) [lp; hp; n25; n50; bp]).
Proof.
  intros Hl Hlp Hhp Hn50 Hn25 H1 H2 Hbp out. unfold out.
  rewrite (@filterData_bandpass_eq lib s r lp hp n50 n25
             Hl Hlp Hhp Hn50 Hn25 band_low band_high bp H1 H2 Hbp).
  repeat split.
Qed.

Lemma filterData_bandpass_run_witness :
  let L := Demo.lib (Demo.const 0%R) (Demo.const 0%R) in
  fst (filterData L 8%R 12%R Demo.valid) = inr tt /\
  eegFilterFrequencyResponse (snd (filterData L 8%R 12%R Demo.valid)) =
    Some (cascade_response L 500 (Demo.folded ++ [Demo.gain 1])).
Proof.
  intros L.
  destruct (@filterData_bandpass_run L Demo.valid Demo.recording
              (Demo.gain 1) (Demo.gain 1) (Demo.gain (1 / 2))
              (Demo.gain (1 / 2)) (Demo.gain 1) 8%R 12%R
              eq_refl eq_refl eq_refl eq_refl eq_refl)
    as (Hret & _ & Hresp); [lra|lra|reflexivity|].
  split; [exact Hret|exact Hresp].
Defined.

(** X20: [filterData] does not start from the raw signal but restarts its
    accumulator: called twice with the same band-pass, the signal has gone
    through the six filters twice while the transfer function assigned is
    that of a single pass. *)
Theorem filterData_twice (lib : SciLib R) (s : NoiseWall R)
    (r : Recording R) (lp hp n50 n25 bp : list R * list R)
    (band_low band_high : R) :
  loaded s = Some r ->
  LP lib r = Some lp -> HP lib r = Some hp ->
  N50 lib r = Some n50 -> N25 lib r = Some n25 ->
  (0 < band_low)%R -> (band_low < band_high)%R ->
  butter lib 4 [wn band_low r; wn band_high r] bandpass = Some bp ->
  let six := [lp; n50; hp; n25; n50; bp] in
  let out := (filterData lib band_low band_high ;;;
              filterData lib band_low band_high) s in
  fst out = inr tt /\
  option_map (@eeg R) (loaded (snd out)) =
    Some (cascade_signal lib six (cascade_signal lib six (eeg r))) /\
  eegFilterFrequencyResponse (snd out) =
    Some (cascade_response lib (worN r) [lp; hp; n25; n50; bp]).
Proof.
  intros Hl Hlp Hhp Hn50 Hn25 H1 H2 Hbp six out. unfold out.
  unfold bind.
  rewrite (@filterData_bandpass_eq lib s r lp hp n50 n25
             Hl Hlp Hhp Hn50 Hn25 band_low band_high bp H1 H2 Hbp).
  match goal with
  | |- context [filterData lib band_low band_high ?t] =>
      rewrite (@filterData_bandpass_eq lib t
                 (set_eeg (cascade_signal lib six (eeg r)) r)
                 lp hp n50 n25 eq_refl Hlp Hhp Hn50 Hn25
                 band_low band_high bp H1 H2 Hbp)
  end.
  split; [reflexivity|]. split; reflexivity.
Qed.

Lemma filterData_twice_witness :
  let L := Demo.lib (Demo.const 0%R) (Demo.const 0%R) in
  let six := Demo.applied ++ [Demo.gain 1] in
  option_map (@eeg R)
    (loaded (snd ((filterData L 8%R 12%R ;;; filterData L 8%R 12%R)
                    Demo.valid))) =
    Some (cascade_signal L six (cascade_signal L six (eeg Demo.recording))).
Proof.
  intros L six.
  destruct (@filterData_twice L Demo.valid Demo.recording
              (Demo.gain 1) (Demo.gain 1) (Demo.gain (1 / 2))
              (Demo.gain (1 / 2)) (Demo.gain 1) 8%R 12%R
              eq_refl eq_refl eq_refl eq_refl eq_refl)
    as (_ & Hsig & _); [lra|lra|reflexivity|].
  exact Hsig.
Defined.

Lemma filterData_bandpass_rejected_run_witness :
  filterData demo_lib_no_bandpass 8%R 12%R Demo.valid =
    (inl (ValueError "butter"),
     set_loaded
       (set_eeg
          (cascade_signal demo_lib_no_bandpass Demo.applied
             (eeg Demo.recording)) Demo.recording)
       Demo.valid).
Proof.
  apply (@filterData_bandpass_rejected_run demo_lib_no_bandpass Demo.valid
           Demo.recording (Demo.gain 1) (Demo.gain 1) (Demo.gain (1 / 2))
           (Demo.gain (1 / 2)) eq_refl eq_refl eq_refl eq_refl eq_refl
           8%R 12%R); [lra|lra|reflexivity].
Defined.

(** X7: with band_low < 0, [filterData] returns after
    k = -int(band_low) passes of the 8-tap FIR kernel over the signal of
    stages A to D ([band_high] is not looked at). For band_low <= -1 there
    is at least one pass and the transfer function assigned is the
    accumulator of stages A to D times the k-th power of the kernel's
    response; for -1 < band_low < 0 there is no pass and the transfer
    function is not assigned. *)
Theorem filterData_fir (lib : SciLib R) (s : NoiseWall R) (r : Recording R)
    (lp hp n50 n25 : list R * list R) (band_low band_high : R) :
  loaded s = Some r ->
  LP lib r = Some lp -> HP lib r = Some hp ->
  N50 lib r = Some n50 -> N25 lib r = Some n25 ->
  (band_low < 0)%R ->
  let k := Z.to_nat (- Rtrunc band_low) in
  let r1 := set_eeg (cascade_signal lib [lp; n50; hp; n25; n50] (eeg r)) r in
  let fresp := cascade_response lib (worN r) [lp; hp; n25; n50] in
  let out := filterData lib band_low band_high s in
  fst out = inr tt /\
  option_map (@eeg R) (loaded (snd out)) =
    Some (Nat.iter k (lfilter lib fir_b fir_a) (eeg r1)) /\
  ((band_low <= -1)%R ->
   (1 <= k)%nat /\
   eegFilterFrequencyResponse (snd out) =
     Some (Nat.iter k
             (zipWith fmul (magnitude lib fir_b fir_a (worN r))) fresp)) /\
  ((-1 < band_low)%R ->
   k = 0%nat /\
   eegFilterFrequencyResponse (snd out) = eegFilterFrequencyResponse s).
Proof.
  intros Hl Hlp Hhp Hn50 Hn25 Hneg k r1 fresp out.
  assert (out = (inr tt, after_fir lib k fresp r1 (set_loaded r1 s))) as ->
    by (apply (@filterData_fir_run lib s r lp hp n50 n25
                 Hl Hlp Hhp Hn50 Hn25 band_low band_high Hneg)).
  cbn [fst snd]. split; [reflexivity|]. split; [|split].
  - destruct k; reflexivity.
  - intros Hle. pose proof (Rtrunc_below_minus_one Hle) as Ht.
    assert (1 <= k)%nat as Hk by (unfold k; lia).
    split; [exact Hk|]. destruct k; [lia|reflexivity].
  - intros Hgt. assert (k = 0%nat) as ->.
    { unfold k. rewrite Rtrunc_small_negative by lra. reflexivity. }
    split; reflexivity.
Qed.

Lemma filterData_fir_witness :
  let L := Demo.lib (Demo.const 0%R) (Demo.const 0%R) in
  fst (filterData L (-2)%R 0%R Demo.valid) = inr tt /\
  eegFilterFrequencyResponse (snd (filterData L (-2)%R 0%R Demo.valid)) =
    Some (Nat.iter 2 (zipWith fmul (magnitude L fir_b fir_a 500))
            (cascade_response L 500 Demo.folded)) /\
  eegFilterFrequencyResponse
    (snd (filterData L (-1 / 2)%R 0%R Demo.valid)) = None.
Proof.
  intros L.
  pose proof (@filterData_fir L Demo.valid Demo.recording
                (Demo.gain 1) (Demo.gain 1) (Demo.gain (1 / 2))
                (Demo.gain (1 / 2)) (-2)%R 0%R
                eq_refl eq_refl eq_refl eq_refl eq_refl) as H2.
  pose proof (@filterData_fir L Demo.valid Demo.recording
                (Demo.gain 1) (Demo.gain 1) (Demo.gain (1 / 2))
                (Demo.gain (1 / 2)) (-1 / 2)%R 0%R
                eq_refl eq_refl eq_refl eq_refl eq_refl) as Hh.
  cbv zeta in H2, Hh.
  destruct H2 as (Hret & _ & Hresp & _); [lra|].
  destruct Hh as (_ & _ & _ & Hnone); [lra|].
  split; [exact Hret|]. split.
  - destruct Hresp as [_ Hresp]; [lra|]. rewrite Hresp.
    change (-2)%R with (IZR (-2)). rewrite Rtrunc_IZR. reflexivity.
  - destruct Hnone as [_ Hnone]; [lra|]. exact Hnone.
Defined.

(** ** The size of the transfer function *)

Section Sized.
Context {F : Type} {ops : FloatOps F} (lib : SciLib F) (n : nat).

Lemma keeps_write_eeg_sized (x : list F) : keeps (sized n) (write_eeg x).
Proof.
  apply keeps_modify. intros s [Hl Hh].
  destruct (loaded s) as [r|] eqn:E.
  - split; [|exact Hh]. cbn [loaded set_loaded].
    intros r' [= <-]. exact (Hl r eq_refl).
  - split; [|exact Hh]. intros r' Hr'. congruence.
Qed.

Lemma keeps_read_eeg_sized : keeps (sized n) (@read_eeg F).
Proof. unfold read_eeg. keeps_steps. Qed.

Lemma calcFrequencyResponse_sized (b a h_in : list F) :
  h_in = [] \/ length h_in = n ->
  triple (sized n) (calcFrequencyResponse lib b a h_in)
    (fun fresp s => length fresp = n /\ sized n s) (sized n).
Proof.
  intros Hh s Hs. unfold calcFrequencyResponse, bind, getattr.
  destruct (loaded s) as [r|] eqn:E; [|exact Hs].
  pose proof (proj1 Hs r E) as Hn. fold (worN r). rewrite Hn.
  destruct Hh as [-> | Hlen].
  - cbn. split; [apply magnitude_length|exact Hs].
  - destruct h_in as [|x h_in]; cbn [length Nat.ltb Nat.leb]; unfold ret.
    + split; [apply magnitude_length|exact Hs].
    + split; [|exact Hs]. rewrite zipWith_length; [exact Hlen|].
      now rewrite magnitude_length.
Qed.

Lemma triple_after_keeps_sized {A B} (m : M (NoiseWall F) A)
    (k : A -> M (NoiseWall F) B) (Q : B -> NoiseWall F -> Prop) :
  keeps (sized n) m -> (forall a, triple (sized n) (k a) Q (sized n)) ->
  triple (sized n) (bind m k) Q (sized n).
Proof. intros Hm Hk. now apply triple_bind with (Q := fun _ => sized n). Qed.

Hint Resolve keeps_write_eeg_sized keeps_read_eeg_sized keeps_design : keeps.

Ltac sized_steps :=
  lazymatch goal with
  | |- triple _ (calcFrequencyResponse _ _ _ _) _ _ =>
      apply calcFrequencyResponse_sized
  | |- triple _ (bind _ _) _ _ =>
      apply triple_after_keeps_sized;
      [solve [eauto with keeps]|intros; sized_steps]
  end.

Lemma stageA_sized :
  triple (sized n) (stageA lib)
    (fun fresp s => length fresp = n /\ sized n s) (sized n).
Proof. unfold stageA. sized_steps. now left. Qed.

Lemma stageB_sized (h : list F) :
  length h = n ->
  triple (sized n) (stageB lib h)
    (fun fresp s => length fresp = n /\ sized n s) (sized n).
Proof. intros Hh. unfold stageB. sized_steps. now right. Qed.

Lemma stageC_sized (h : list F) :
  length h = n ->
  triple (sized n) (stageC lib h)
    (fun fresp s => length fresp = n /\ sized n s) (sized n).
Proof. intros Hh. unfold stageC. sized_steps. now right. Qed.

Lemma stageD_sized (h : list F) :
  length h = n ->
  triple (sized n) (stageD lib h)
    (fun fresp s => length fresp = n /\ sized n s) (sized n).
Proof. intros Hh. unfold stageD. sized_steps. now right. Qed.

Lemma triple_assume_sized {A} (P0 : Prop) (m : M (NoiseWall F) A)
    (Q : A -> NoiseWall F -> Prop) :
  (P0 -> triple (sized n) m Q (sized n)) ->
  triple (fun s => P0 /\ sized n s) m Q (sized n).
Proof. intros H s [H0 Hs]. exact (H H0 s Hs). Qed.

Lemma assign_response_sized (h : list F) :
  triple (fun s => length h = n /\ sized n s)
    (modify (set_eegFilterFrequencyResponse h))
    (fun _ => sized n) (sized n).
Proof. intros s [Hh [Hl _]]. split; [exact Hl|exact Hh]. Qed.

Lemma firLoop_sized (k : nat) :
  forall h, length h = n -> keeps (sized n) (firLoop lib k h).
Proof.
  induction k as [|k IH]; intros h Hh; cbn [firLoop]; [apply keeps_ret|].
  apply keeps_bind; [auto with keeps|intros x].
  apply keeps_bind; [auto with keeps|intros _].
  apply triple_bind
    with (Q := fun fresp s => length fresp = n /\ sized n s).
  - apply calcFrequencyResponse_sized. now right.
  - intros h'. apply triple_assume_sized. intros Hh' s Hs.
    unfold bind, modify. apply (IH h' Hh').
    split; [exact (proj1 Hs)|exact Hh'].
Qed.

Lemma stageE_sized (band_low band_high : F) (h : list F) :
  length h = n -> keeps (sized n) (stageE lib band_low band_high h).
Proof.
  intros Hh. unfold stageE. apply keeps_bind.
  - apply keeps_if; [|apply keeps_ret].
    apply keeps_bind; [auto with keeps|intros r].
    apply keeps_bind; [auto with keeps|intros bp].
    apply keeps_bind; [auto with keeps|intros x].
    apply keeps_bind; [auto with keeps|intros _].
    apply triple_bind
      with (Q := fun fresp s => length fresp = n /\ sized n s).
    + apply calcFrequencyResponse_sized. now right.
    + intros h'. apply assign_response_sized.
  - intros _. apply keeps_if; [|apply keeps_ret].
    apply keeps_bind; [auto with keeps|intros k].
    now apply firLoop_sized.
Qed.

Lemma filterData_sized (band_low band_high : F) :
  keeps (sized n) (filterData lib band_low band_high).
Proof.
  unfold filterData, stagesAD.
  eapply triple_bind.
  - eapply triple_bind; [apply stageA_sized|].
    intros h1. apply triple_assume_sized. intros H1.
    eapply triple_bind; [now apply stageB_sized|].
    intros h2. apply triple_assume_sized. intros H2.
    eapply triple_bind; [now apply stageC_sized|].
    intros h3. apply triple_assume_sized. intros H3.
    now apply stageD_sized.
  - intros h. apply triple_assume_sized. intros Hh. now apply stageE_sized.
Qed.
End Sized.

(** X8: on a constructed object, whatever the band and whether
    [filterData] returns or raises, the transfer function it leaves, if it
    assigns one, has exactly 500 samples (one per Hz from 0 to
    fs/2 - 1). *)
Theorem filterData_response_length {F} {ops : FloatOps F} (lib : SciLib F)
    (d : Dataset F) (band_low band_high : F) :
  match eegFilterFrequencyResponse
          (snd (filterData lib band_low band_high (init d))) with
  | Some h => length h = 500%nat
  | None => True
  end.
Proof.
  assert (sized 500 (init d)) as H0.
  { split; [|exact I]. cbn [init loaded].
    destruct (marker_ok (all_exp_ok_dat d)); intros r [= <-]. reflexivity. }
  pose proof (@filterData_sized F ops lib 500 band_low band_high
                (init d) H0) as K.
  destruct (filterData lib band_low band_high (init d)) as [[e|u] s'];
    exact (proj2 K).
Qed.

(** ** The signal band against the transfer function *)

Lemma py_index_in_range {A} (a : list A) (i : Z) :
  (0 <= i < Z.of_nat (length a))%Z -> exists x, py_index a i = inr x.
Proof.
  intros H. unfold py_index.
  replace (i <? 0)%Z with false by (symmetry; apply Z.ltb_ge; lia).
  replace (i <? 0)%Z with false by (symmetry; apply Z.ltb_ge; lia).
  destruct (nth_error a (Z.to_nat i)) as [x|] eqn:E; [now exists x|].
  apply nth_error_None in E. lia.
Qed.

Lemma py_index_at_length {A} (a : list A) (i : Z) :
  (Z.of_nat (length a) <= i)%Z -> py_index a i = inl IndexError.
Proof.
  intros H. unfold py_index.
  replace (i <? 0)%Z with false by (symmetry; apply Z.ltb_ge; lia).
  replace (i <? 0)%Z with false by (symmetry; apply Z.ltb_ge; lia).
  destruct (nth_error a (Z.to_nat i)) as [x|] eqn:E; [|reflexivity].
  assert (nth_error a (Z.to_nat i) <> None) as Hn by congruence.
  apply nth_error_Some in Hn. lia.
Qed.

Section BandBounds.
Context {F : Type} {ops : FloatOps F} (lib : SciLib F).

Lemma bandpower_loop_overrun (psd : F -> option F) (h : list F)
    (t : NoiseWall F) (hi : Z) (k : nat) :
  forall (lo : Z) (acc : F),
    eegFilterFrequencyResponse t = Some h ->
    (0 <= lo)%Z -> (lo + Z.of_nat k = Z.of_nat (length h))%Z ->
    (Z.of_nat (length h) < hi)%Z ->
    (forall f, (lo <= f <= Z.of_nat (length h))%Z -> psd (of_Z f) <> None) ->
    bandpower_loop lib psd (arange lo hi) acc t = (inl IndexError, t).
Proof.
  induction k as [|k IH]; intros lo acc Hh Hlo Hk Hhi Hpsd;
    rewrite arange_cons by lia; cbn [bandpower_loop].
  - unfold bind at 1.
    destruct (psd (of_Z lo)) as [y|] eqn:Ey;
      [|exfalso; apply (Hpsd lo); [lia|exact Ey]].
    cbn [lift_opt]. unfold ret at 1.
    unfold bind at 1. unfold getattr at 1. rewrite Hh.
    unfold bind at 1. rewrite py_index_at_length by lia. reflexivity.
  - unfold bind at 1.
    destruct (psd (of_Z lo)) as [y|] eqn:Ey;
      [|exfalso; apply (Hpsd lo); [lia|exact Ey]].
    cbn [lift_opt]. unfold ret at 1.
    unfold bind at 1. unfold getattr at 1. rewrite Hh.
    unfold bind at 1.
    destruct (@py_index_in_range F h lo) as [x Hx]; [lia|]. rewrite Hx.
    cbn [lift_sum]. unfold ret at 1.
    apply IH; try assumption; try lia. intros f Hf. apply Hpsd. lia.
Qed.
End BandBounds.

(** X9: when the signal band starts inside the transfer function and its
    upper end reaches past it (0 <= f_signal_min <= len < f_signal_max,
    first table readable and interpolable up to len),
    [calculateParalysedEEGVariance] raises [IndexError] at the frequency
    len, leaving pureEEGVar assigned to 0. *)
Theorem calculateParalysedEEGVariance_band_overrun {F} {ops : FloatOps F}
    (lib : SciLib F) (s : NoiseWall F) (h : list F)
    (a : list (F * F)) (psd : F -> option F) :
  eegFilterFrequencyResponse s = Some h ->
  loadtxt_psd lib "sub1a.dat" = Some a ->
  interp1d_cubic lib (map fst a) (map snd a) = Some psd ->
  (0 <= f_signal_min s <= Z.of_nat (length h))%Z ->
  (Z.of_nat (length h) < f_signal_max s)%Z ->
  (forall f, (f_signal_min s <= f <= Z.of_nat (length h))%Z ->
             psd (of_Z f) <> None) ->
  calculateParalysedEEGVariance lib s =
    (inl IndexError, set_pureEEGVar (of_Z 0) s).
Proof.
  intros Hh Ha Hpsd Hlo Hhi Hdef.
  unfold calculateParalysedEEGVariance, addParalysedEEGVariance.
  unfold bind at 1. unfold modify at 1.
  unfold bind at 1. unfold bind at 1. unfold getattr at 1.
  cbn [pureEEGVar set_pureEEGVar].
  unfold bind at 1. unfold readParalysedEEGVarianceFromWhithamEtAl.
  unfold bind at 1. rewrite Ha. cbn [lift_opt]. unfold ret at 1.
  unfold bind at 1. rewrite Hpsd. cbn [lift_opt]. unfold ret at 1.
  unfold bind at 1. unfold gets at 1. unfold bind at 1. unfold gets at 1.
  cbn [f_signal_min f_signal_max set_pureEEGVar].
  rewrite (@bandpower_loop_overrun F ops lib psd h
             (set_pureEEGVar (of_Z 0) s) (f_signal_max s)
             (Z.to_nat (Z.of_nat (length h) - f_signal_min s))
             (f_signal_min s) (of_Z 0) Hh); try lia; [reflexivity|exact Hdef].
Qed.

Lemma calculateParalysedEEGVariance_band_overrun_witness :
  let L := Demo.lib (Demo.const 0%R) (Demo.const 0%R) in
  calculateParalysedEEGVariance L (set_f_signal 1 95 Demo.banded) =
    (inl IndexError, set_pureEEGVar 0%R (set_f_signal 1 95 Demo.banded)).
Proof.
  intros L.
  apply (@calculateParalysedEEGVariance_band_overrun R real_ops L
           (set_f_signal 1 95 Demo.banded) [1; 1; 1; 1]%R
           Demo.flat_table Demo.flat_psd eq_refl eq_refl eq_refl).
  - cbn. lia.
  - cbn. lia.
  - cbn [f_signal_min set_f_signal length]. intros f Hf.
    unfold Demo.flat_psd. cbn [of_Z real_ops].
    assert (Rleb 0 (IZR f) = true) as ->
      by (apply Rleb_true, IZR_le; lia).
    assert (Rleb (IZR f) 100 = true) as ->
      by (apply Rleb_true, IZR_le; lia).
    discriminate.
Defined.

(** ** Degenerate bands and the SNR *)

Lemma arange_empty (lo hi : Z) : (hi <= lo)%Z -> arange lo hi = [].
Proof.
  intros H. unfold arange.
  replace (Z.to_nat (hi - lo)) with O by lia. reflexivity.
Qed.

(** X10: with an empty signal band (f_signal_max <= f_signal_min) and six
    tables that can be read and interpolated,
    [calculateParalysedEEGVariance] returns with pureEEGVar = 0 and never
    reads the transfer function: the call succeeds even when [filterData]
    has not assigned one. *)
Theorem calculateParalysedEEGVariance_empty_band (lib : SciLib R)
    (s : NoiseWall R) :
  (f_signal_max s <= f_signal_min s)%Z ->
  (forall fn, In fn whitham_tables ->
     exists a psd, loadtxt_psd lib fn = Some a /\
                   interp1d_cubic lib (map fst a) (map snd a) = Some psd) ->
  calculateParalysedEEGVariance lib s = (inr tt, set_pureEEGVar 0%R s).
Proof.
  intros Hband Ht.
  assert (forall fn v, In fn whitham_tables ->
            addParalysedEEGVariance lib fn (set_pureEEGVar v s) =
            (inr tt, set_pureEEGVar (v + 0)%R s)) as Hstep.
  { intros fn v Hfn. destruct (Ht fn Hfn) as (a & psd & Ha & Hpsd).
    unfold addParalysedEEGVariance, readParalysedEEGVarianceFromWhithamEtAl.
    unfold bind at 1. unfold getattr at 1. cbn [pureEEGVar set_pureEEGVar].
    unfold bind at 1. unfold bind at 1. rewrite Ha. cbn [lift_opt].
    unfold ret at 1. unfold bind at 1. rewrite Hpsd. cbn [lift_opt].
    unfold ret at 1.
    unfold bind at 1. unfold gets at 1. unfold bind at 1. unfold gets at 1.
    cbn [f_signal_min f_signal_max set_pureEEGVar].
    rewrite arange_empty by exact Hband. reflexivity. }
  unfold whitham_tables in Hstep. unfold calculateParalysedEEGVariance.
  unfold bind at 1. unfold modify at 1.
  do 6 (unfold bind at 1; rewrite Hstep by (cbn [In]; tauto)).
  unfold bind at 1. unfold getattr at 1. cbn [pureEEGVar set_pureEEGVar].
  unfold modify. cbn [of_Z fdiv real_ops]. f_equal.
  replace ((0 + 0 + 0 + 0 + 0 + 0 + 0) / 6)%R with 0%R by lra.
  reflexivity.
Qed.

Lemma calculateParalysedEEGVariance_empty_band_witness :
  let L := Demo.lib (Demo.const 0%R) (Demo.const 0%R) in
  eegFilterFrequencyResponse (set_f_signal 95 1 Demo.valid) = None /\
  calculateParalysedEEGVariance L (set_f_signal 95 1 Demo.valid) =
    (inr tt, set_pureEEGVar 0%R (set_f_signal 95 1 Demo.valid)).
Proof.
  intros L. split; [reflexivity|].
  apply (@calculateParalysedEEGVariance_empty_band L
           (set_f_signal 95 1 Demo.valid)).
  - cbn. lia.
  - intros fn _. exists Demo.flat_table, Demo.flat_psd.
    split; reflexivity.
Defined.

(** X11: once noiseVarMin, rho and pureEEGVar are assigned, [calcSNR]
    stores consciousEEGvar = gain^2 * pureEEGVar first; with
    x = consciousEEGvar / (noiseVarMin * rho) it returns with
    SNR = 10 * log10(x) exactly when x > 0, and otherwise raises the
    [ValueError] of [math.log10] with consciousEEGvar already stored and
    SNR untouched. The noise variance noiseVarMin * rho is taken
    non-zero: only there is the quotient of the reals the one numpy
    computes. *)
Theorem calcSNR_spec (lib : SciLib R) (s : NoiseWall R) (vmin r p : R) :
  noiseVarMin s = Some vmin -> rho s = Some r -> pureEEGVar s = Some p ->
  (vmin * r <> 0)%R ->
  let c := (consciousEEGgain s * consciousEEGgain s * p)%R in
  let x := (c / (vmin * r))%R in
  ((0 < x)%R ->
   calcSNR lib s =
     (inr tt, set_SNR (10 * log10 lib x)%R (set_consciousEEGvar c s))) /\
  ((x <= 0)%R ->
   calcSNR lib s =
     (inl (ValueError "math domain error"), set_consciousEEGvar c s)).
Proof.
  intros Hmin Hr Hp _ c x.
  rewrite (@calcSNR_run R real_ops lib s vmin r p Hmin Hr Hp). cbv zeta.
  change (consciousEEGgain s *. consciousEEGgain s *. p /.
          noiseVariance vmin r) with x.
  unfold math_log10. cbn [fltb fleb of_Z real_ops]. split; intros H.
  - replace (Rltb 0 x) with true by (symmetry; now apply Rltb_true).
    reflexivity.
  - replace (Rltb 0 x) with false by (symmetry; now apply Rltb_false).
    replace (Rleb x 0) with true by (symmetry; now apply Rleb_true).
    reflexivity.
Qed.

Lemma calcSNR_spec_witness :
  let L := Demo.lib (Demo.const 0%R) (Demo.const 0%R) in
  let s2 := set_pureEEGVar 2%R (set_rho 2%R (Demo.measured 1 4)) in
  let s0 := set_pureEEGVar 0%R (set_rho 2%R (Demo.measured 1 4)) in
  calcSNR L s2 =
    (inr tt, set_SNR (10 * (ln (1 * 1 * 2 / (1 * 2)) / ln 10))%R
               (set_consciousEEGvar (1 * 1 * 2)%R s2)) /\
  calcSNR L s0 =
    (inl (ValueError "math domain error"),
     set_consciousEEGvar (1 * 1 * 0)%R s0).
Proof.
  intros L s2 s0. split.
  - apply (@calcSNR_spec L s2 1%R 2%R 2%R eq_refl eq_refl eq_refl);
      [lra|cbn; lra].
  - apply (@calcSNR_spec L s0 1%R 2%R 0%R eq_refl eq_refl eq_refl);
      [lra|cbn; lra].
Defined.

(** ** The sign of the reference variance *)

Section ReferenceSign.
Context (lib : SciLib R).
Hypothesis pow10_nonneg : forall x, (0 <= pow10 lib x)%R.

Lemma bandpower_loop_result (psd : R -> option R) (freqs : list Z) :
  forall (acc : R) (t : NoiseWall R),
    snd (bandpower_loop lib psd freqs acc t) = t /\
    forall b, fst (bandpower_loop lib psd freqs acc t) = inr b ->
              (acc <= b)%R.
Proof.
  induction freqs as [|f freqs IH]; intros acc t; cbn [bandpower_loop].
  - split; [reflexivity|]. unfold ret; cbn [fst]. intros b [= <-]. lra.
  - unfold bind, getattr, lift_opt, lift_sum, ret, raise.
    destruct (psd (of_Z f)) as [y|];
      [|split; [reflexivity|cbn; intros b Hb; discriminate Hb]].
    destruct (eegFilterFrequencyResponse t) as [h|];
      [|split; [reflexivity|cbn; intros b Hb; discriminate Hb]].
    destruct (py_index h f) as [e|hf];
      [split; [reflexivity|cbn; intros b Hb; discriminate Hb]|].
    destruct (IH (acc +. pow10 lib y *. (hf *. hf)) t) as [Hs Hb].
    split; [exact Hs|]. intros b Hres. specialize (Hb b Hres).
    cbn [fadd fmul real_ops] in Hb.
    pose proof (pow10_nonneg y). assert (0 <= hf * hf)%R by nra. nra.
Qed.

Lemma readParalysed_result (fn : string) (t : NoiseWall R) :
  snd (readParalysedEEGVarianceFromWhithamEtAl lib fn t) = t /\
  forall b, fst (readParalysedEEGVarianceFromWhithamEtAl lib fn t) = inr b
            -> (0 <= b)%R.
Proof.
  unfold readParalysedEEGVarianceFromWhithamEtAl.
  unfold bind, gets, lift_opt, ret, raise.
  destruct (loadtxt_psd lib fn) as [a|];
    [|split; [reflexivity|cbn; intros b Hb; discriminate Hb]].
  destruct (interp1d_cubic lib (map fst a) (map snd a)) as [psd|];
    [|split; [reflexivity|cbn; intros b Hb; discriminate Hb]].
  destruct (bandpower_loop_result psd
              (arange (f_signal_min t) (f_signal_max t)) (of_Z 0) t)
    as [Hs Hb].
  split; [exact Hs|]. intros b Hres. specialize (Hb b Hres).
  cbn [of_Z real_ops] in Hb. exact Hb.
Qed.

Lemma addParalysed_nonneg (fn : string) :
  keeps pure_nonneg (addParalysedEEGVariance lib fn).
Proof.
  intros t (p & Hp & Hp0). unfold addParalysedEEGVariance.
  unfold bind at 1. unfold getattr at 1. rewrite Hp.
  unfold bind at 1.
  destruct (readParalysed_result fn t) as [Hs Hb].
  destruct (readParalysedEEGVarianceFromWhithamEtAl lib fn t)
    as [[e|b] t']; cbn [snd fst] in Hs, Hb; subst t'.
  - now exists p.
  - unfold modify. eexists. split; [reflexivity|].
    specialize (Hb b eq_refl). cbn [fadd real_ops]. lra.
Qed.
End ReferenceSign.

(** X12: whatever the tables and the transfer function, and whether it
    returns or raises, [calculateParalysedEEGVariance] leaves pureEEGVar
    assigned to a number that is not negative, provided 10 ** x is never
    negative. *)
Theorem pureEEGVar_nonneg (lib : SciLib R) (s : NoiseWall R) :
  (forall x, (0 <= pow10 lib x)%R) ->
  exists p, pureEEGVar (snd (calculateParalysedEEGVariance lib s)) = Some p
            /\ (0 <= p)%R.
Proof.
  intros Hpow.
  assert (keeps pure_nonneg
            (v <- getattr "pureEEGVar" (@pureEEGVar R) ;;
             modify (set_pureEEGVar (v /. of_Z 6)))) as Hlast.
  { intros t (p & Hp & Hp0). unfold bind, getattr, modify. rewrite Hp.
    eexists. split; [reflexivity|]. cbn [fdiv of_Z real_ops]. lra. }
  assert (keeps pure_nonneg
    (addParalysedEEGVariance lib "sub1a.dat";;;
     addParalysedEEGVariance lib "sub1b.dat";;;
     addParalysedEEGVariance lib "sub1c.dat";;;
     addParalysedEEGVariance lib "sub2a.dat";;;
     addParalysedEEGVariance lib "sub2b.dat";;;
     addParalysedEEGVariance lib "sub2c.dat";;; 
     v <- getattr "pureEEGVar" (@pureEEGVar R) ;;
     modify (set_pureEEGVar (v /. of_Z 6)))) as K.
  { repeat (apply keeps_bind;
              [now apply addParalysed_nonneg|intros _]).
    exact Hlast. }
  unfold calculateParalysedEEGVariance. unfold bind at 1. unfold modify at 1.
  assert (pure_nonneg (set_pureEEGVar (of_Z 0) s)) as H0
    by (eexists; split; [reflexivity|cbn; lra]).
  specialize (K _ H0).
  match goal with
  | |- exists p, pureEEGVar (snd ?m) = _ /\ _ =>
      destruct m as [[e|u] t']
  end; exact K.
Qed.

Lemma pureEEGVar_nonneg_witness :
  exists p,
    pureEEGVar
      (snd (calculateParalysedEEGVariance
              (Demo.lib (Demo.const 0%R) (Demo.const 0%R)) Demo.banded))
      = Some p /\ (0 <= p)%R.
Proof.
  apply (@pureEEGVar_nonneg (Demo.lib (Demo.const 0%R) (Demo.const 0%R))
           Demo.banded).
  intros x. cbn [pow10 Demo.lib]. unfold Rpower. left. apply exp_pos.
Defined.

(** ** The wall grows with rho *)

(** X13: with the real base-10 logarithm, the noise wall
    [calcNoiseWall] stores is strictly increasing in rho on rho > 1: of
    two objects with 1 < rho1 < rho2 both calls return, and the first wall
    is the lower one. *)
Theorem calcNoiseWall_increasing (lib : SciLib R) (s1 s2 : NoiseWall R)
    (rho1 rho2 : R) :
  (forall x, log10 lib x = (ln x / ln 10)%R) ->
  rho s1 = Some rho1 -> rho s2 = Some rho2 ->
  (1 < rho1)%R -> (rho1 < rho2)%R ->
  exists w1 w2,
    calcNoiseWall lib s1 = (inr tt, set_SNRwall w1 s1) /\
    calcNoiseWall lib s2 = (inr tt, set_SNRwall w2 s2) /\
    (w1 < w2)%R.
Proof.
  intros Hlog H1 H2 Hgt Hlt.
  exists (10 * log10 lib (rho1 - 1 / rho1))%R,
         (10 * log10 lib (rho2 - 1 / rho2))%R.
  split; [now apply calcNoiseWall_above|].
  split; [apply calcNoiseWall_above; [exact H2|lra]|].
  rewrite !Hlog.
  assert (0 < ln 10)%R as Hln10.
  { rewrite <- ln_1. apply ln_increasing; lra. }
  assert (1 / rho2 < 1 / rho1)%R as Hinv.
  { unfold Rdiv. rewrite !Rmult_1_l. apply Rinv_lt_contravar; [nra|lra]. }
  assert (0 < 1 / rho1 < 1)%R as Hr1.
  { split.
    - apply Rdiv_lt_0_compat; lra.
    - apply (Rmult_lt_reg_r rho1); [lra|]. field_simplify; lra. }
  assert (ln (rho1 - 1 / rho1) < ln (rho2 - 1 / rho2))%R as Hln
    by (apply ln_increasing; lra).
  apply Rmult_lt_compat_l; [lra|].
  unfold Rdiv. apply Rmult_lt_compat_r; [|exact Hln].
  now apply Rinv_0_lt_compat.
Qed.

Lemma calcNoiseWall_increasing_witness :
  let L := Demo.lib (Demo.const 0%R) (Demo.const 0%R) in
  exists w1 w2,
    calcNoiseWall L (set_rho 2%R Demo.valid) =
      (inr tt, set_SNRwall w1 (set_rho 2%R Demo.valid)) /\
    calcNoiseWall L (set_rho 10%R Demo.valid) =
      (inr tt, set_SNRwall w2 (set_rho 10%R Demo.valid)) /\
    (w1 < w2)%R.
Proof.
  intros L.
  apply (@calcNoiseWall_increasing L (set_rho 2%R Demo.valid)
           (set_rho 10%R Demo.valid) 2%R 10%R);
    [reflexivity|reflexivity|reflexivity|lra|lra].
Defined.

(** ** The quiet window *)

Lemma slice_bound_nonneg (n i : Z) :
  (0 <= n)%Z -> (0 <= i)%Z -> slice_bound n i = Z.min n i.
Proof.
  intros Hn Hi. unfold slice_bound.
  replace (i <? 0)%Z with false by (symmetry; apply Z.ltb_ge; lia). lia.
Qed.

(** X14: on a loaded recording whose quiet-window table has at least two
    entries, and whose window bounds t1 = int(fs * (relaxed[0] + dt)) and
    t2 = int(fs * (relaxed[1] + dt)) are not negative,
    [getMinNoiseVarEEGChunk] returns, without changing the object, the
    samples of index min(n, t1) up to min(n, t2) - 1 of the n-sample
    signal: a window reaching past the end of the recording is clipped
    silently and a reversed window gives an empty chunk. *)
Theorem getMinNoiseVarEEGChunk_window (s : NoiseWall R) (r : Recording R)
    (ta tb : R) (rest : list R) :
  loaded s = Some r -> relaxed r = ta :: tb :: rest ->
  let dt := (zero_data r - zero_video r)%R in
  let t1 := Rtrunc (IZR (fs r) * (ta + dt)) in
  let t2 := Rtrunc (IZR (fs r) * (tb + dt)) in
  let n := Z.of_nat (length (eeg r)) in
  (0 <= t1)%Z -> (0 <= t2)%Z ->
  exists chunk,
    getMinNoiseVarEEGChunk s = (inr chunk, s) /\
    chunk = firstn (Z.to_nat (Z.min n t2 - Z.min n t1))
              (skipn (Z.to_nat (Z.min n t1)) (eeg r)) /\
    length chunk = Z.to_nat (Z.min n t2 - Z.min n t1) /\
    ((t2 <= t1)%Z -> chunk = []).
Proof.
  intros Hl Hrel dt t1 t2 n H1 H2.
  assert (getMinNoiseVarEEGChunk s = (inr (py_slice (eeg r) t1 t2), s))
    as Hrun.
  { unfold getMinNoiseVarEEGChunk.
    unfold bind at 1. unfold getattr at 1. rewrite Hl. rewrite Hrel.
    unfold bind at 1.
    change (py_index (ta :: tb :: rest) 0) with (@inr exn R ta).
    cbn [lift_sum]. unfold ret at 1.
    unfold bind at 1. cbn [ftrunc real_ops lift_sum]. unfold ret at 1.
    unfold bind at 1.
    change (py_index (ta :: tb :: rest) 1) with (@inr exn R tb).
    cbn [lift_sum]. unfold ret at 1.
    unfold bind at 1. cbn [ftrunc real_ops lift_sum]. unfold ret at 1.
    reflexivity. }
  assert (py_slice (eeg r) t1 t2 =
          firstn (Z.to_nat (Z.min n t2 - Z.min n t1))
            (skipn (Z.to_nat (Z.min n t1)) (eeg r))) as Hslice.
  { unfold py_slice. fold n.
    rewrite !slice_bound_nonneg by lia. reflexivity. }
  exists (py_slice (eeg r) t1 t2). split; [exact Hrun|].
  split; [exact Hslice|]. rewrite Hslice. split.
  - rewrite length_firstn, length_skipn. unfold n. lia.
  - intros Hrev. replace (Z.to_nat (Z.min n t2 - Z.min n t1)) with O by lia.
    reflexivity.
Qed.

Lemma getMinNoiseVarEEGChunk_window_witness :
  exists chunk,
    getMinNoiseVarEEGChunk Demo.valid = (inr chunk, Demo.valid) /\
    length chunk = 2%nat.
Proof.
  assert (Rtrunc (IZR 1000 * (0 + (0 - 0))) = 0%Z) as E1.
  { replace (IZR 1000 * (0 + (0 - 0)))%R with (IZR 0) by lra.
    apply Rtrunc_IZR. }
  assert (Rtrunc (IZR 1000 * (2 / 1000 + (0 - 0))) = 2%Z) as E2.
  { replace (IZR 1000 * (2 / 1000 + (0 - 0)))%R with (IZR 2) by lra.
    apply Rtrunc_IZR. }
  destruct (@getMinNoiseVarEEGChunk_window Demo.valid Demo.recording
              0%R (2 / 1000)%R [] eq_refl eq_refl)
    as (chunk & Hrun & _ & Hlen & _).
  - cbn [fs zero_data zero_video Demo.recording loadDataFromFile
         Demo.dataset zero_time_data_dat zero_time_video_dat].
    rewrite E1. lia.
  - cbn [fs zero_data zero_video Demo.recording loadDataFromFile
         Demo.dataset zero_time_data_dat zero_time_video_dat].
    rewrite E2. lia.
  - exists chunk. split; [exact Hrun|]. rewrite Hlen.
    cbn [fs zero_data zero_video Demo.recording loadDataFromFile
         Demo.dataset zero_time_data_dat zero_time_video_dat eeg
         emgeeg_dat map length].
    rewrite E1, E2. reflexivity.
Defined.

(** ** What the sanity checks let through in binary64 *)

(** X15: in binary64 a nan goes through every sanity check, since each is
    a comparison that a nan fails: [calcNoiseVarMin] with a nan variance
    (numpy's variance of an empty quiet window) stores it and returns, and
    [calcNoiseWall] with a nan rho returns and stores a nan wall. *)
Theorem nan_passes_the_checks (lib : SciLib PrimFloat.float)
    (s : NoiseWall PrimFloat.float) (chunk : list PrimFloat.float) :
  fst (getMinNoiseVarEEGChunk s) = inr chunk ->
  np_var lib (map (fun y => y /. noiseReduction s) chunk) = PrimFloat.nan ->
  calcNoiseVarMin lib s = (inr tt, set_noiseVarMin PrimFloat.nan s) /\
  calcNoiseWall lib (set_rho PrimFloat.nan s) =
    (inr tt,
     set_SNRwall (of_Z 10 *. PrimFloat.nan) (set_rho PrimFloat.nan s)).
Proof.
  intros Hchunk Hvar. split; [|reflexivity].
  assert (getMinNoiseVarEEGChunk s = (inr chunk, s)) as Hrun.
  { rewrite <- (getMinNoiseVarEEGChunk_pure s) at 2. rewrite <- Hchunk.
    now destruct (getMinNoiseVarEEGChunk s). }
  unfold calcNoiseVarMin. unfold bind at 1. rewrite Hrun.
  unfold bind at 1. unfold gets at 1. rewrite Hvar. reflexivity.
Qed.

Lemma nan_passes_the_checks_witness :
  calcNoiseVarMin lib64 quiet64 =
    (inr tt, set_noiseVarMin PrimFloat.nan quiet64).
Proof.
  apply (@nan_passes_the_checks lib64 quiet64 [] eq_refl eq_refl).
Defined.

(** ** [doAllCalcs] before [filterData] *)

Section BeforeFiltering.
Context {F : Type} {ops : FloatOps F} (lib : SciLib F).

Lemma readParalysed_unset_untyped (fn : string) (t : NoiseWall F) :
  eegFilterFrequencyResponse t = None ->
  (f_signal_min t < f_signal_max t)%Z ->
  exists e, readParalysedEEGVarianceFromWhithamEtAl lib fn t = (inl e, t)
            /\ is_NoiseWallException e = false.
Proof.
  intros Hnone Hband. unfold readParalysedEEGVarianceFromWhithamEtAl.
  unfold bind at 1. destruct (loadtxt_psd lib fn) as [a|]; cbn;
    [|eexists; split; reflexivity].
  unfold bind at 1.
  destruct (interp1d_cubic lib (map fst a) (map snd a)) as [psd|]; cbn;
    [|eexists; split; reflexivity].
  run. rewrite (arange_cons Hband). cbn [bandpower_loop]. run.
  destruct (psd (of_Z (f_signal_min t))); cbn;
    [|eexists; split; reflexivity].
  rewrite Hnone. eexists; split; reflexivity.
Qed.
End BeforeFiltering.

(** X16: [doAllCalcs] on a valid object on which no transfer function has
    been assigned (no [filterData] call, or one of its fall-through
    calls), with a non-empty band, raises at the first table; the
    exception is not a [NoiseWallException], and the object is left with
    the band assigned and pureEEGVar = 0. *)
Theorem doAllCalcs_before_filterData {F} {ops : FloatOps F}
    (lib : SciLib F) (s : NoiseWall F) (lo hi : Z) :
  dataok s = true -> eegFilterFrequencyResponse s = None -> (lo < hi)%Z ->
  exists e,
    doAllCalcs lib lo hi s =
      (inl e, set_pureEEGVar (of_Z 0) (set_f_signal lo hi s)) /\
    is_NoiseWallException e = false.
Proof.
  intros Hok Hnone Hband.
  destruct (@readParalysed_unset_untyped F ops lib "sub1a.dat"
              (set_pureEEGVar (of_Z 0) (set_f_signal lo hi s)) Hnone Hband)
    as (e & He & Hk).
  exists e. split; [|exact Hk].
  unfold doAllCalcs. unfold bind at 1. unfold modify at 1.
  unfold bind at 1. unfold gets at 1. cbn [dataok set_f_signal].
  rewrite Hok. cbn [negb].
  unfold bind at 1.
  unfold calculateParalysedEEGVariance, addParalysedEEGVariance.
  unfold bind at 1. unfold modify at 1.
  unfold bind at 1. unfold bind at 1. unfold getattr at 1.
  cbn [pureEEGVar set_pureEEGVar].
  unfold bind at 1. rewrite He. reflexivity.
Qed.

Lemma doAllCalcs_before_filterData_witness :
  exists e,
    doAllCalcs (Demo.lib (Demo.const 0%R) (Demo.const 0%R)) 1 95 Demo.valid =
      (inl e, set_pureEEGVar 0%R (set_f_signal 1 95 Demo.valid)) /\
    is_NoiseWallException e = false.
Proof.
  apply (@doAllCalcs_before_filterData R real_ops
           (Demo.lib (Demo.const 0%R) (Demo.const 0%R)) Demo.valid 1 95
           eq_refl eq_refl). lia.
Defined.

(** ** The typed failures of [doAllCalcs] and their causes *)

Section NeverTyped.
Context {S : Type}.

Lemma nt_bind {A B} (m : M S A) (k : A -> M S B) :
  never_typed m -> (forall a, never_typed (k a)) -> never_typed (bind m k).
Proof.
  intros Hm Hk s. unfold bind. specialize (Hm s).
  destruct (m s) as [[e|a] s']; [exact Hm|apply Hk].
Qed.

Lemma nt_ret {A} (a : A) : never_typed (@ret S A a).
Proof. intros s. exact I. Qed.

Lemma nt_gets {A} (f : S -> A) : never_typed (gets f).
Proof. intros s. exact I. Qed.

Lemma nt_modify (f : S -> S) : never_typed (modify f).
Proof. intros s. exact I. Qed.

Lemma nt_getattr {A} (n : string) (f : S -> option A) :
  never_typed (getattr n f).
Proof. intros s. unfold getattr. destruct (f s); cbn; trivial. Qed.

Lemma nt_lift_opt {A} (e : exn) (o : option A) :
  is_NoiseWallException e = false -> never_typed (@lift_opt S A e o).
Proof. intros He s. destruct o; cbn; trivial. Qed.

Lemma nt_lift_sum {A} (o : exn + A) :
  untyped o -> never_typed (@lift_sum S A o).
Proof. intros Ho s. destruct o; cbn; trivial. Qed.
End NeverTyped.

Lemma py_index_untyped {A} (a : list A) (i : Z) : untyped (py_index a i).
Proof.
  unfold py_index. destruct (_ <? 0)%Z; [reflexivity|].
  destruct (nth_error a _); cbn; trivial.
Qed.

Section NeverTypedMethods.
Context {F : Type} {ops : FloatOps F} (lib : SciLib F).

Lemma nt_bandpower_loop (psd : F -> option F) (freqs : list Z) :
  forall acc, never_typed (bandpower_loop lib psd freqs acc).
Proof.
  induction freqs as [|f freqs IH]; intros acc; cbn [bandpower_loop];
    [apply nt_ret|].
  apply nt_bind; [now apply nt_lift_opt|intros y].
  apply nt_bind; [apply nt_getattr|intros h].
  apply nt_bind; [apply nt_lift_sum, py_index_untyped|intros hf]. apply IH.
Qed.

Lemma nt_readParalysed (fn : string) :
  never_typed (readParalysedEEGVarianceFromWhithamEtAl lib fn).
Proof.
  unfold readParalysedEEGVarianceFromWhithamEtAl.
  apply nt_bind; [now apply nt_lift_opt|intros a].
  apply nt_bind; [now apply nt_lift_opt|intros psd].
  apply nt_bind; [apply nt_gets|intros lo].
  apply nt_bind; [apply nt_gets|intros hi]. apply nt_bandpower_loop.
Qed.

Lemma nt_calculateParalysedEEGVariance :
  never_typed (calculateParalysedEEGVariance lib).
Proof.
  assert (forall fn, never_typed (addParalysedEEGVariance lib fn)) as Hadd.
  { intros fn. unfold addParalysedEEGVariance.
    apply nt_bind; [apply nt_getattr|intros v].
    apply nt_bind; [apply nt_readParalysed|intros b]. apply nt_modify. }
  unfold calculateParalysedEEGVariance.
  apply nt_bind; [apply nt_modify|intros _].
  repeat (apply nt_bind; [apply Hadd|intros _]).
  apply nt_bind; [apply nt_getattr|intros v]. apply nt_modify.
Qed.
End NeverTypedMethods.

Lemma nt_getMinNoiseVarEEGChunk :
  never_typed (@getMinNoiseVarEEGChunk R real_ops).
Proof.
  unfold getMinNoiseVarEEGChunk.
  apply nt_bind; [apply nt_getattr|intros r].
  apply nt_bind; [apply nt_lift_sum, py_index_untyped|intros rel0].
  apply nt_bind; [apply nt_lift_sum; exact I|intros t1].
  apply nt_bind; [apply nt_lift_sum, py_index_untyped|intros rel1].
  apply nt_bind; [apply nt_lift_sum; exact I|intros t2]. apply nt_ret.
Qed.

Section TypedFailures.
Context (lib : SciLib R).
Open Scope R_scope.

Lemma calcNoiseVarMin_typed (s s1 : NoiseWall R) (reason : string) :
  calcNoiseVarMin lib s = (inl (NoiseWallException reason), s1) ->
  exists v, s1 = set_noiseVarMin v s /\
    ((reason = MIN_VAR_NEG /\ v < 0) \/
     (reason = MIN_VAR_UNUSUALLY_HIGH /\ 0 <= v /\ 50e-6 < sqrt v)).
Proof.
  intros Hret.
  destruct (getMinNoiseVarEEGChunk s) as [[e|chunk] t] eqn:E.
  - pose proof (nt_getMinNoiseVarEEGChunk s) as Hu. rewrite E in Hu.
    unfold calcNoiseVarMin in Hret. unfold bind at 1 in Hret.
    rewrite E in Hret. injection Hret as -> _. discriminate Hu.
  - assert (t = s) as ->
      by (rewrite <- (getMinNoiseVarEEGChunk_pure s); now rewrite E).
    rewrite (@calcNoiseVarMin_run lib s chunk E) in Hret. cbv zeta in Hret.
    set (v := np_var lib _) in Hret. exists v.
    rewrite lit_50E_6_real in Hret.
    destruct (Rltb v 0) eqn:E1.
    + apply Rltb_true in E1. injection Hret as <- <-. auto.
    + apply Rltb_false in E1.
      destruct (Rltb 50e-6 (sqrt v)) eqn:E2; [|discriminate].
      apply Rltb_true in E2. injection Hret as <- <-. auto.
Qed.

Lemma calcNoiseVarMax_typed (s s1 : NoiseWall R) (reason : string) :
  calcNoiseVarMax lib s = (inl (NoiseWallException reason), s1) ->
  exists m, s1 = set_noiseVarMax m s /\ reason = MAX_VAR_NEG /\ m < 0.
Proof.
  intros Hret. destruct (loaded s) as [r|] eqn:E.
  - rewrite (@calcNoiseVarMax_run lib s r E) in Hret. cbv zeta in Hret.
    set (m := np_median lib _) in Hret. exists m.
    destruct (Rltb m 0) eqn:E1; [|discriminate].
    apply Rltb_true in E1. injection Hret as <- <-. auto.
  - unfold calcNoiseVarMax in Hret. unfold bind at 1 in Hret.
    unfold getattr at 1 in Hret. rewrite E in Hret. discriminate.
Qed.

Lemma calcNoiseWall_typed (s s1 : NoiseWall R) (r : R) (reason : string) :
  rho s = Some r ->
  calcNoiseWall lib s = (inl (NoiseWallException reason), s1) ->
  s1 = s /\ reason = MIN_VAR_LARGER_THAN_MAX_VAR /\ r < 1.
Proof.
  intros Hr Hret. destruct (Rtotal_order r 1) as [Hc | [Hc | Hc]].
  - rewrite (@calcNoiseWall_below lib s r Hr Hc) in Hret.
    injection Hret as <- <-. auto.
  - subst r. rewrite (@calcNoiseWall_one lib s Hr) in Hret. discriminate.
  - rewrite (@calcNoiseWall_above lib s r Hr Hc) in Hret. discriminate.
Qed.
End TypedFailures.

(** X17: when [doAllCalcs] raises a [NoiseWallException], the reason
    names the check that failed and the object shows how far the
    calculation went: DATA_INVALID with nothing but the band assigned;
    MIN_VAR_NEG or MIN_VAR_UNUSUALLY_HIGH with pureEEGVar and the offending
    noiseVarMin assigned; MAX_VAR_NEG with noiseVarMax assigned as well;
    MIN_VAR_LARGER_THAN_MAX_VAR with rho = sqrt(noiseVarMax / noiseVarMin)
    < 1 assigned as well. In every case SNRwall, consciousEEGvar and SNR
    are what they were before the call. *)
Theorem doAllCalcs_typed_failure (lib : SciLib R) (s s' : NoiseWall R)
    (lo hi : Z) (reason : string) :
  doAllCalcs lib lo hi s = (inl (NoiseWallException reason), s') ->
  let s0 := set_f_signal lo hi s in
  (SNRwall s' = SNRwall s /\ consciousEEGvar s' = consciousEEGvar s /\
   SNR s' = SNR s) /\
  ((reason = DATA_INVALID /\ dataok s = false /\ s' = s0) \/
   (exists p v : R,
      dataok s = true /\
      s' = set_noiseVarMin v (set_pureEEGVar p s0) /\
      ((reason = MIN_VAR_NEG /\ (v < 0)%R) \/
       (reason = MIN_VAR_UNUSUALLY_HIGH /\ (0 <= v)%R /\
        (50e-6 < sqrt v)%R))) \/
   (exists p v m : R,
      dataok s = true /\
      s' = set_noiseVarMax m (set_noiseVarMin v (set_pureEEGVar p s0)) /\
      reason = MAX_VAR_NEG /\ (m < 0)%R) \/
   (exists p v m : R,
      dataok s = true /\
      s' = set_rho (sqrt (m / v))
             (set_noiseVarMax m (set_noiseVarMin v (set_pureEEGVar p s0))) /\
      reason = MIN_VAR_LARGER_THAN_MAX_VAR /\ (sqrt (m / v) < 1)%R)).
Proof.
  intros Hret s0. unfold doAllCalcs in Hret.
  unfold bind at 1 in Hret. unfold modify at 1 in Hret.
  unfold bind at 1 in Hret. unfold gets at 1 in Hret.
  cbn [dataok set_f_signal] in Hret. fold s0 in Hret.
  destruct (dataok s) eqn:Hok; cbn [negb] in Hret.
  2:{ injection Hret as <- <-. split; [repeat split|]. left. auto. }
  destruct (calculateParalysedEEGVariance_frame lib s0) as [p Hp].
  pose proof (nt_calculateParalysedEEGVariance lib s0) as Hu.
  unfold bind at 1 in Hret.
  destruct (calculateParalysedEEGVariance lib s0) as [[e|u] s1].
  { injection Hret as -> _. discriminate Hu. }
  cbn [snd] in Hp. subst s1. clear Hu.
  unfold bind at 1 in Hret.
  destruct (calcNoiseVarMin lib (set_pureEEGVar p s0)) as [[e|[]] s2] eqn:E2.
  { injection Hret as -> ->. apply calcNoiseVarMin_typed in E2.
    destruct E2 as (v & -> & Hv). split; [repeat split|].
    right; left. exists p, v. auto. }
  apply calcNoiseVarMin_returns in E2. destruct E2 as (v & -> & Hv0 & Hv1).
  unfold bind at 1 in Hret.
  match type of Hret with
  | context [calcNoiseVarMax lib ?t] =>
      destruct (calcNoiseVarMax lib t) as [[e|[]] s3] eqn:E3
  end.
  { injection Hret as -> ->. apply calcNoiseVarMax_typed in E3.
    destruct E3 as (m & -> & Hr & Hm). split; [repeat split|].
    right; right; left. exists p, v, m. auto. }
  apply calcNoiseVarMax_returns in E3. destruct E3 as (m & -> & Hm0).
  unfold bind at 1 in Hret.
  match type of Hret with
  | context [calcRho ?t] =>
      rewrite (@calcRho_run t v m eq_refl eq_refl) in Hret
  end.
  unfold bind at 1 in Hret.
  match type of Hret with
  | context [calcNoiseWall lib ?t] =>
      destruct (calcNoiseWall lib t) as [[e|[]] s4] eqn:E4
  end.
  { injection Hret as -> ->.
    match type of E4 with
    | calcNoiseWall lib ?t = _ =>
        apply (@calcNoiseWall_typed lib t s' (sqrt (m / v)) reason eq_refl)
          in E4
    end.
    destruct E4 as (-> & Hr & Hlt). split; [repeat split|].
    right; right; right. exists p, v, m. auto. }
  match type of E4 with
  | calcNoiseWall lib ?t = _ =>
      apply (@calcNoiseWall_returns lib t s4 (sqrt (m / v)) eq_refl) in E4
  end.
  destruct E4 as (Hr & ->).
  match type of Hret with
  | calcSNR lib ?t = _ =>
      rewrite (@calcSNR_run R real_ops lib t v (sqrt (m / v)) p
                 eq_refl eq_refl eq_refl) in Hret
  end.
  cbv zeta in Hret.
  match type of Hret with
  | context [math_log10 lib ?x] =>
      unfold math_log10 in Hret;
      destruct (of_Z 0 <. x); [discriminate|];
      destruct (x <=. of_Z 0); discriminate
  end.
Qed.

Lemma doAllCalcs_typed_failure_witness :
  let L := Demo.lib (Demo.const 0%R) (Demo.const 0%R) in
  SNRwall (snd (doAllCalcs L 1 95 Demo.invalid)) = None /\
  SNR (snd (doAllCalcs L 1 95 Demo.invalid)) = None.
Proof.
  intros L.
  destruct (@doAllCalcs_typed_failure L Demo.invalid
              (set_f_signal 1 95 Demo.invalid) 1 95 DATA_INVALID eq_refl)
    as ((Hw & _ & Hs) & _).
  split; [exact Hw|exact Hs].
Defined.

(** ** What [filterData] and [doAllCalcs] never write *)

Section Frames.
Context {F : Type} {ops : FloatOps F} (lib : SciLib F).

Lemma filter_frame_refl (s : NoiseWall F) : filter_frame s s.
Proof.
  unfold filter_frame. repeat split. destruct (loaded s); repeat split.
Qed.

Lemma keeps_write_eeg_frame (s0 : NoiseWall F) (x : list F) :
  keeps (filter_frame s0) (write_eeg x).
Proof.
  apply keeps_modify. intros s Hs.
  destruct (loaded s) as [r|] eqn:E; [|exact Hs].
  unfold filter_frame in Hs |- * . rewrite E in Hs.
  cbn [loaded set_loaded f_signal_min f_signal_max noiseReduction
       consciousEEGgain dataok pureEEGVar noiseVarMin noiseVarMax rho
       SNRwall consciousEEGvar SNR].
  destruct Hs as (H1 & H2 & H3 & H4 & H5 & H6 & H7 & H8 & H9 & H10 & H11
                  & H12 & Hr).
  repeat (split; [assumption|]).
  destruct (loaded s0); exact Hr.
Qed.

Lemma keeps_assign_response_frame (s0 : NoiseWall F) (h : list F) :
  keeps (filter_frame s0) (modify (set_eegFilterFrequencyResponse h)).
Proof. apply keeps_modify. intros s Hs. exact Hs. Qed.

Lemma keeps_read_eeg_frame (I : NoiseWall F -> Prop) : keeps I (@read_eeg F).
Proof. unfold read_eeg. keeps_steps. Qed.

Hint Resolve keeps_write_eeg_frame keeps_assign_response_frame
  keeps_read_eeg_frame keeps_calcFrequencyResponse keeps_design : keeps.

Lemma keeps_firLoop_frame (s0 : NoiseWall F) (k : nat) :
  forall h, keeps (filter_frame s0) (firLoop lib k h).
Proof.
  induction k as [|k IH]; intros h; cbn [firLoop]; [apply keeps_ret|].
  apply keeps_bind; [auto with keeps|intros x].
  apply keeps_bind; [auto with keeps|intros _].
  apply keeps_bind; [auto with keeps|intros h'].
  apply keeps_bind; [auto with keeps|intros _]. apply IH.
Qed.

Lemma keeps_filterData_frame (s0 : NoiseWall F) (band_low band_high : F) :
  keeps (filter_frame s0) (filterData lib band_low band_high).
Proof.
  unfold filterData. apply keeps_bind.
  - unfold stagesAD, stageA, stageB, stageC, stageD. keeps_steps.
  - intros h. unfold stageE. apply keeps_bind.
    + apply keeps_if; [|apply keeps_ret]. keeps_steps.
    + intros _. apply keeps_if; [|apply keeps_ret].
      apply keeps_bind; [auto with keeps|intros k].
      apply keeps_firLoop_frame.
Qed.

Lemma keeps_maxVarLoop (I : NoiseWall F -> Prop) (rows : list (F * F)) :
  forall acc, keeps I (maxVarLoop lib rows acc).
Proof.
  induction rows as [|[tb te] rows IH]; intros acc; cbn [maxVarLoop];
    [apply keeps_ret|].
  apply keeps_bind; [auto with keeps|intros r].
  apply keeps_bind; [auto with keeps|intros t1].
  apply keeps_bind; [auto with keeps|intros t2].
  apply keeps_bind; [auto with keeps|intros nr]. apply IH.
Qed.

Lemma keeps_doAllCalcs_inputs (s0 : NoiseWall F) (lo hi : Z) :
  keeps (same_inputs s0) (doAllCalcs lib lo hi).
Proof.
  assert (forall f : NoiseWall F -> NoiseWall F,
            (forall s, loaded (f s) = loaded s /\
                       eegFilterFrequencyResponse (f s) =
                         eegFilterFrequencyResponse s /\
                       dataok (f s) = dataok s /\
                       noiseReduction (f s) = noiseReduction s /\
                       consciousEEGgain (f s) = consciousEEGgain s) ->
            keeps (same_inputs s0) (modify f)) as Hmod.
  { intros f Hf. apply keeps_modify. intros s (H1 & H2 & H3 & H4 & H5).
    destruct (Hf s) as (E1 & E2 & E3 & E4 & E5).
    unfold same_inputs. rewrite E1, E2, E3, E4, E5. auto. }
  assert (forall fn, keeps (same_inputs s0)
                       (addParalysedEEGVariance lib fn)) as Hadd.
  { intros fn. unfold addParalysedEEGVariance.
    apply keeps_bind; [auto with keeps|intros v].
    apply keeps_bind; [apply keeps_readParalysed|intros b].
    apply Hmod. intros s. repeat split. }
  unfold doAllCalcs.
  apply keeps_bind; [apply Hmod; intros s; repeat split|intros _].
  apply keeps_bind; [auto with keeps|intros ok].
  apply keeps_if; [auto with keeps|].
  apply keeps_bind.
  { unfold calculateParalysedEEGVariance.
    apply keeps_bind; [apply Hmod; intros s; repeat split|intros _].
    repeat (apply keeps_bind; [apply Hadd|intros _]).
    apply keeps_bind; [auto with keeps|intros v].
    apply Hmod; intros s; repeat split. }
  intros _. apply keeps_bind.
  { unfold calcNoiseVarMin.
    apply keeps_bind; [unfold getMinNoiseVarEEGChunk; keeps_steps|intros c].
    apply keeps_bind; [auto with keeps|intros nr].
    apply keeps_bind; [apply Hmod; intros s; repeat split|intros _].
    keeps_steps. }
  intros _. apply keeps_bind.
  { unfold calcNoiseVarMax.
    apply keeps_bind; [auto with keeps|intros r].
    apply keeps_bind; [apply keeps_maxVarLoop|intros l].
    apply keeps_bind; [apply Hmod; intros s; repeat split|intros _].
    keeps_steps. }
  intros _. apply keeps_bind.
  { unfold calcRho.
    apply keeps_bind; [auto with keeps|intros vmax].
    apply keeps_bind; [auto with keeps|intros vmin].
    apply Hmod; intros s; repeat split. }
  intros _. apply keeps_bind.
  { unfold calcNoiseWall.
    apply keeps_bind; [auto with keeps|intros r].
    apply keeps_if; [auto with keeps|].
    apply keeps_bind; [auto with keeps|intros v].
    apply Hmod; intros s; repeat split. }
  intros _. unfold calcSNR.
  apply keeps_bind; [auto with keeps|intros vmin].
  apply keeps_bind; [auto with keeps|intros r].
  apply keeps_bind; [auto with keeps|intros g].
  apply keeps_bind; [auto with keeps|intros p].
  apply keeps_bind; [apply Hmod; intros s; repeat split|intros _].
  apply keeps_bind; [auto with keeps|intros c].
  apply keeps_bind; [auto with keeps|intros v].
  apply Hmod; intros s; repeat split.
Qed.
End Frames.

(** X18: whatever the band, and whether it returns or raises,
    [filterData] writes nothing but the signal and the transfer function:
    the band attributes, the two factors, the validity flag, the other
    loaded tables and every derived scalar are left as they were. *)
Theorem filterData_frame {F} {ops : FloatOps F} (lib : SciLib F)
    (s : NoiseWall F) (band_low band_high : F) :
  filter_frame s (snd (filterData lib band_low band_high s)).
Proof.
  pose proof (@keeps_filterData_frame F ops lib s band_low band_high s
                (filter_frame_refl s)) as K.
  now destruct (filterData lib band_low band_high s) as [[e|u] s'].
Qed.

(** X19: whether it returns or raises, [doAllCalcs] never writes its
    inputs: the loaded recording with its signal, the transfer function,
    the validity flag, the noise-reduction factor and the conscious-EEG
    gain are left as they were. *)
Theorem doAllCalcs_keeps_inputs {F} {ops : FloatOps F} (lib : SciLib F)
    (s : NoiseWall F) (lo hi : Z) :
  same_inputs s (snd (doAllCalcs lib lo hi s)).
Proof.
  assert (same_inputs s s) as H0 by (repeat split).
  pose proof (@keeps_doAllCalcs_inputs F ops lib s lo hi s H0) as K.
  now destruct (doAllCalcs lib lo hi s) as [[e|u] s'].
Qed.
